(** * The localisation loader of [script.js], embedded in Rocq

    The [i18n] object of [src/script.js] is modelled as a record [Heap]
    holding its fields together with the parts of the browser it talks to
    ([localStorage], [navigator.language], [Date.now()], the translated
    DOM nodes).  Synchronous methods are state-passing functions on
    [Heap]; [async] methods are programs of type [Prog], run by a small
    event loop ([exec], [step]) in which network replies and timers arrive
    as explicit events, so that a reply that loses the race against the
    timer is still delivered to the suspended method.  The rest of the
    script, the language selector and the click handlers of the page,
    are functions on a record [Page] of the elements they write.

    Modelling conventions.
    - A [Map] is a [gmap] and a [Set] a [gset].  The translations and
      the substitution data are plain objects, a [gmap] of their own
      properties; where the code reads them by a key it does not fix
      itself ([this.translations[key]], [data[key]]), a key that is not an
      own property finds the member of [Object.prototype] of that name, if
      there is one ([inherited]).
    - A ResourceSet is a flat object whose values are strings, arrays of
      strings, or integers (the two reserved cache fields).
    - A string is a sequence of UTF-16 code units, as in JS; the model
      has the code units below U+0100, one [ascii] each, so that lengths
      and [substring] count as the code does.  Numbers are integers.
    - The texts [JSON.parse] is applied to are entries of [localStorage].
      [JSON_parse] is exact on the texts [JSON_stringify] writes; statements
      about an entry say whether it is absent, was written by
      [saveToLocalStorage], or cannot be JSON at all.  Bodies served by the
      network are objects of the same kind.
    - [console.*] calls have no effect on the state and are left out,
      except [showLoadingIndicator], whose calls are recorded. *)

From Equations Require Import Equations.
From stdpp Require Import gmap strings list fin_maps.
From Stdlib Require Import ZArith Ascii String DecimalString DecimalZ.
Local Open Scope string_scope.

(** ** JSON values and the [JSON] built-in *)

Inductive JValue : Type :=
| JStr (s : string)
| JArr (items : list string)
| JNum (n : Z).

Abbreviation ResourceSet := (gmap string JValue).

Definition dquote : ascii := "034"%char.
Definition backslash : ascii := "\"%char.

Definition hex_digit (n : N) : ascii :=
  if (n <? 10)%N then ascii_of_N (48 + n) else ascii_of_N (87 + n).

Definition unhex (c : ascii) : option N :=
  let n := N_of_ascii c in
  if (48 <=? n)%N && (n <=? 57)%N then Some (n - 48)%N
  else if (97 <=? n)%N && (n <=? 102)%N then Some (n - 87)%N
  else if (65 <=? n)%N && (n <=? 70)%N then Some (n - 55)%N
  else None.

Definition escape_char (c : ascii) : string :=
  let n := N_of_ascii c in
  if Ascii.eqb c dquote then String backslash (String dquote EmptyString)
  else if Ascii.eqb c backslash then String backslash (String backslash EmptyString)
  else if (n =? 8)%N then String backslash "b"
  else if (n =? 9)%N then String backslash "t"
  else if (n =? 10)%N then String backslash "n"
  else if (n =? 12)%N then String backslash "f"
  else if (n =? 13)%N then String backslash "r"
  else if (n <? 32)%N then
    String backslash
      (String "u" (String "0" (String "0"
         (String (hex_digit (n / 16)) (String (hex_digit (n mod 16)) EmptyString)))))
  else String c EmptyString.

Fixpoint escape (s : string) : string :=
  match s with
  | EmptyString => EmptyString
  | String c s' => escape_char c +:+ escape s'
  end.

Definition quote (s : string) : string :=
  String dquote (escape s +:+ String dquote EmptyString).

Definition unescape (e : ascii) : option ascii :=
  if Ascii.eqb e dquote then Some dquote
  else if Ascii.eqb e backslash then Some backslash
  else if Ascii.eqb e "/" then Some "/"%char
  else if Ascii.eqb e "b" then Some "008"%char
  else if Ascii.eqb e "t" then Some "009"%char
  else if Ascii.eqb e "n" then Some "010"%char
  else if Ascii.eqb e "f" then Some "012"%char
  else if Ascii.eqb e "r" then Some "013"%char
  else None.

Definition unicode_escape (h1 h2 h3 h4 : ascii) : option ascii :=
  match unhex h1, unhex h2, unhex h3, unhex h4 with
  | Some a, Some b, Some c, Some d =>
      let n := (((a * 16 + b) * 16 + c) * 16 + d)%N in
      if (n <? 256)%N then Some (ascii_of_N n) else None
  | _, _, _, _ => None
  end.

Definition prepend (c : ascii) (r : option (string * string)) : option (string * string) :=
  match r with
  | Some (s, rest) => Some (String c s, rest)
  | None => None
  end.

Fixpoint parse_chars (s : string) : option (string * string) :=
  match s with
  | EmptyString => None
  | String c s1 =>
      if Ascii.eqb c dquote then Some (EmptyString, s1)
      else if Ascii.eqb c backslash then
        match s1 with
        | EmptyString => None
        | String e s2 =>
            if Ascii.eqb e "u" then
              match s2 with
              | String h1 (String h2 (String h3 (String h4 s6))) =>
                  match unicode_escape h1 h2 h3 h4 with
                  | Some d => prepend d (parse_chars s6)
                  | None => None
                  end
              | _ => None
              end
            else
              match unescape e with
              | Some d => prepend d (parse_chars s2)
              | None => None
              end
        end
      else if (N_of_ascii c <? 32)%N then None
      else prepend c (parse_chars s1)
  end.

Definition parse_quoted (s : string) : option (string * string) :=
  match s with
  | String c s' => if Ascii.eqb c dquote then parse_chars s' else None
  | EmptyString => None
  end.

Definition Z_to_string (z : Z) : string := NilZero.string_of_int (Z.to_int z).

Definition Z_of_string (s : string) : option Z :=
  match NilZero.int_of_string s with
  | Some d => let z := Z.of_int d in
              if String.eqb (Z_to_string z) s then Some z else None
  | None => None
  end.

Definition is_number_char (c : ascii) : bool :=
  let n := N_of_ascii c in
  Ascii.eqb c "-" || ((48 <=? n)%N && (n <=? 57)%N).

Fixpoint span_number (s : string) : string * string :=
  match s with
  | EmptyString => (EmptyString, EmptyString)
  | String c s' =>
      if is_number_char c
      then let '(digits, rest) := span_number s' in (String c digits, rest)
      else (EmptyString, s)
  end.

(** [s] continues a number. *)
Definition starts_with_number_char (s : string) : bool :=
  match s with
  | EmptyString => false
  | String c _ => is_number_char c
  end.

Definition parse_number (s : string) : option (Z * string) :=
  let '(digits, rest) := span_number s in
  match Z_of_string digits with
  | Some z => Some (z, rest)
  | None => None
  end.

Fixpoint join (sep : string) (l : list string) : string :=
  match l with
  | [] => EmptyString
  | [x] => x
  | x :: l' => x +:+ sep +:+ join sep l'
  end.

Fixpoint parse_items (fuel : nat) (s : string) : option (list string * string) :=
  match fuel with
  | O => None
  | S fuel' =>
      match parse_quoted s with
      | Some (x, String c rest) =>
          if Ascii.eqb c "," then
            match parse_items fuel' rest with
            | Some (l, rest') => Some (x :: l, rest')
            | None => None
            end
          else if Ascii.eqb c "]" then Some ([x], rest)
          else None
      | _ => None
      end
  end.

Definition parse_array (s : string) : option (list string * string) :=
  match s with
  | String "[" (String "]" rest) => Some ([], rest)
  | String "[" s' => parse_items (String.length s') s'
  | _ => None
  end.

Definition stringify_value (v : JValue) : string :=
  match v with
  | JStr s => quote s
  | JArr l => "[" +:+ join "," (quote <$> l) +:+ "]"
  | JNum n => Z_to_string n
  end.

Definition parse_value (s : string) : option (JValue * string) :=
  match s with
  | EmptyString => None
  | String c _ =>
      if Ascii.eqb c dquote then
        match parse_quoted s with Some (x, rest) => Some (JStr x, rest) | None => None end
      else if Ascii.eqb c "[" then
        match parse_array s with Some (l, rest) => Some (JArr l, rest) | None => None end
      else
        match parse_number s with Some (n, rest) => Some (JNum n, rest) | None => None end
  end.

Definition stringify_member (kv : string * JValue) : string :=
  quote kv.1 +:+ ":" +:+ stringify_value kv.2.

Fixpoint parse_members (fuel : nat) (s : string) : option (list (string * JValue) * string) :=
  match fuel with
  | O => None
  | S fuel' =>
      match parse_quoted s with
      | Some (k, String c rest) =>
          if Ascii.eqb c ":" then
            match parse_value rest with
            | Some (v, String c' rest') =>
                if Ascii.eqb c' "," then
                  match parse_members fuel' rest' with
                  | Some (l, rest'') => Some ((k, v) :: l, rest'')
                  | None => None
                  end
                else if Ascii.eqb c' "}" then Some ([(k, v)], rest')
                else None
            | _ => None
            end
          else None
      | _ => None
      end
  end.

Definition JSON_stringify (o : ResourceSet) : string :=
  "{" +:+ join "," (stringify_member <$> map_to_list o) +:+ "}".

(** [JSON.parse], on the texts [JSON.stringify] writes for a ResourceSet:
    an object without white space whose values are strings, arrays of
    strings or integers.  [None] stands for the [SyntaxError]; that is
    what the built-in does when the text cannot be JSON
    ([cannot_be_json] below), and the statements use [None] for such
    texts only. *)
Definition JSON_parse (s : string) : option ResourceSet :=
  match s with
  | String "{" (String "}" EmptyString) => Some ∅
  | String "{" s' =>
      match parse_members (String.length s') s' with
      | Some (l, EmptyString) => Some (list_to_map (reverse l))
      | _ => None
      end
  | _ => None
  end.


#[global] Instance JValue_eq_dec : EqDecision JValue.
Proof. solve_decision. Defined.

Definition JValue_to_sum (v : JValue) : string + (list string + Z) :=
  match v with
  | JStr s => inl s
  | JArr l => inr (inl l)
  | JNum n => inr (inr n)
  end.

Definition JValue_of_sum (x : string + (list string + Z)) : JValue :=
  match x with
  | inl s => JStr s
  | inr (inl l) => JArr l
  | inr (inr n) => JNum n
  end.

#[global] Instance JValue_countable : Countable JValue.
Proof.
  apply (inj_countable' JValue_to_sum JValue_of_sum). by intros [].
Defined.

(** JS truthiness: the empty string and [0] are falsy, arrays are truthy. *)
Definition truthy_string (s : string) : bool :=
  match s with
  | EmptyString => false
  | String _ _ => true
  end.

Definition truthy (v : JValue) : bool :=
  match v with
  | JStr s => truthy_string s
  | JArr _ => true
  | JNum n => negb (n =? 0)%Z
  end.

(** [a || b] on strings. *)
Definition js_or (a b : string) : string := if truthy_string a then a else b.

(** The string a value is coerced to when assigned to [textContent]. *)
Definition js_string (v : JValue) : string :=
  match v with
  | JStr s => s
  | JArr l => join "," l
  | JNum n => Z_to_string n
  end.

(** ** Errors and completions *)

Inductive Error : Type :=
| TimeoutError (lang : string)        (* new Error(`加载超时: ${lang}`) *)
| HttpError (status : Z)              (* new Error(`HTTP error! status: ...`) *)
| NetworkError                        (* fetch() itself rejects *)
| SyntaxError                         (* response.json() rejects *)
| LoadFailed (lang : string)          (* new Error(`(加载 ${lang} 失败) ...`) *)
| QuotaExceededError                  (* localStorage.setItem throws *)
| TypeError.                          (* str.replace is not a function *)

Inductive Completion : Type :=
| Returned (v : JValue)
| ReturnedMember (name : string)      (* the member of Object.prototype of this name *)
| Threw (e : Error).

(** ** The state: the [i18n] object and the browser around it *)

Definition PromiseId := nat.

(** A compiled template is the closure [(data) => str.replace(...)]; it
    is determined by the [str] it captures. *)
Inductive CompiledTemplate : Type :=
| Compiled (str : JValue).

(** The page: its title and the elements that carry a [data-i18n]
    attribute, in document order ([title] is not one of them). *)
#[projections(primitive)]
Record Document : Type := {
  title : string;
  elements : list (string * string)   (* (data-i18n attribute, textContent) *)
}.

#[projections(primitive)]
Record Heap : Type := {
  (* fields of the i18n object *)
  translations : ResourceSet;
  currentLang : string;
  defaultLang : string;
  cache : gmap string ResourceSet;
  initialized : bool;
  fallbackChain : gmap string (list string);
  preloadedLangs : list string;
  loadingPromises : gmap string PromiseId;
  criticalKeys : gset string;
  loadTimeout : Z;
  templateCache : option (gmap JValue CompiledTemplate);
  (* the browser *)
  localStorage : gmap string string;
  storageQuota : N;
  navigatorLanguage : string;
  hasRequestIdleCallback : bool;
  clock : Z;                           (* Date.now() *)
  document : Document;
  loadingIndicator : list bool         (* showLoadingIndicator calls, oldest first *)
}.

Definition set_translations (v : ResourceSet) (h : Heap) : Heap :=
  {| translations := v; currentLang := currentLang h; defaultLang := defaultLang h;
     cache := cache h; initialized := initialized h; fallbackChain := fallbackChain h;
     preloadedLangs := preloadedLangs h; loadingPromises := loadingPromises h;
     criticalKeys := criticalKeys h; loadTimeout := loadTimeout h;
     templateCache := templateCache h; localStorage := localStorage h;
     storageQuota := storageQuota h; navigatorLanguage := navigatorLanguage h;
     hasRequestIdleCallback := hasRequestIdleCallback h; clock := clock h;
     document := document h; loadingIndicator := loadingIndicator h |}.

Definition set_currentLang (v : string) (h : Heap) : Heap :=
  {| translations := translations h; currentLang := v; defaultLang := defaultLang h;
     cache := cache h; initialized := initialized h; fallbackChain := fallbackChain h;
     preloadedLangs := preloadedLangs h; loadingPromises := loadingPromises h;
     criticalKeys := criticalKeys h; loadTimeout := loadTimeout h;
     templateCache := templateCache h; localStorage := localStorage h;
     storageQuota := storageQuota h; navigatorLanguage := navigatorLanguage h;
     hasRequestIdleCallback := hasRequestIdleCallback h; clock := clock h;
     document := document h; loadingIndicator := loadingIndicator h |}.

Definition set_cache (v : gmap string ResourceSet) (h : Heap) : Heap :=
  {| translations := translations h; currentLang := currentLang h;
     defaultLang := defaultLang h;
     cache := v; initialized := initialized h; fallbackChain := fallbackChain h;
     preloadedLangs := preloadedLangs h; loadingPromises := loadingPromises h;
     criticalKeys := criticalKeys h; loadTimeout := loadTimeout h;
     templateCache := templateCache h; localStorage := localStorage h;
     storageQuota := storageQuota h; navigatorLanguage := navigatorLanguage h;
     hasRequestIdleCallback := hasRequestIdleCallback h; clock := clock h;
     document := document h; loadingIndicator := loadingIndicator h |}.

Definition set_initialized (v : bool) (h : Heap) : Heap :=
  {| translations := translations h; currentLang := currentLang h;
     defaultLang := defaultLang h;
     cache := cache h; initialized := v; fallbackChain := fallbackChain h;
     preloadedLangs := preloadedLangs h; loadingPromises := loadingPromises h;
     criticalKeys := criticalKeys h; loadTimeout := loadTimeout h;
     templateCache := templateCache h; localStorage := localStorage h;
     storageQuota := storageQuota h; navigatorLanguage := navigatorLanguage h;
     hasRequestIdleCallback := hasRequestIdleCallback h; clock := clock h;
     document := document h; loadingIndicator := loadingIndicator h |}.

Definition set_fallbackChain (v : gmap string (list string)) (h : Heap) : Heap :=
  {| translations := translations h; currentLang := currentLang h;
     defaultLang := defaultLang h;
     cache := cache h; initialized := initialized h; fallbackChain := v;
     preloadedLangs := preloadedLangs h; loadingPromises := loadingPromises h;
     criticalKeys := criticalKeys h; loadTimeout := loadTimeout h;
     templateCache := templateCache h; localStorage := localStorage h;
     storageQuota := storageQuota h; navigatorLanguage := navigatorLanguage h;
     hasRequestIdleCallback := hasRequestIdleCallback h; clock := clock h;
     document := document h; loadingIndicator := loadingIndicator h |}.

Definition set_preloadedLangs (v : list string) (h : Heap) : Heap :=
  {| translations := translations h; currentLang := currentLang h;
     defaultLang := defaultLang h;
     cache := cache h; initialized := initialized h; fallbackChain := fallbackChain h;
     preloadedLangs := v; loadingPromises := loadingPromises h;
     criticalKeys := criticalKeys h; loadTimeout := loadTimeout h;
     templateCache := templateCache h; localStorage := localStorage h;
     storageQuota := storageQuota h; navigatorLanguage := navigatorLanguage h;
     hasRequestIdleCallback := hasRequestIdleCallback h; clock := clock h;
     document := document h; loadingIndicator := loadingIndicator h |}.

Definition set_loadingPromises (v : gmap string PromiseId) (h : Heap) : Heap :=
  {| translations := translations h; currentLang := currentLang h;
     defaultLang := defaultLang h;
     cache := cache h; initialized := initialized h; fallbackChain := fallbackChain h;
     preloadedLangs := preloadedLangs h; loadingPromises := v;
     criticalKeys := criticalKeys h; loadTimeout := loadTimeout h;
     templateCache := templateCache h; localStorage := localStorage h;
     storageQuota := storageQuota h; navigatorLanguage := navigatorLanguage h;
     hasRequestIdleCallback := hasRequestIdleCallback h; clock := clock h;
     document := document h; loadingIndicator := loadingIndicator h |}.

Definition set_templateCache (v : option (gmap JValue CompiledTemplate)) (h : Heap) : Heap :=
  {| translations := translations h; currentLang := currentLang h;
     defaultLang := defaultLang h;
     cache := cache h; initialized := initialized h; fallbackChain := fallbackChain h;
     preloadedLangs := preloadedLangs h; loadingPromises := loadingPromises h;
     criticalKeys := criticalKeys h; loadTimeout := loadTimeout h;
     templateCache := v; localStorage := localStorage h;
     storageQuota := storageQuota h; navigatorLanguage := navigatorLanguage h;
     hasRequestIdleCallback := hasRequestIdleCallback h; clock := clock h;
     document := document h; loadingIndicator := loadingIndicator h |}.

Definition set_localStorage (v : gmap string string) (h : Heap) : Heap :=
  {| translations := translations h; currentLang := currentLang h;
     defaultLang := defaultLang h;
     cache := cache h; initialized := initialized h; fallbackChain := fallbackChain h;
     preloadedLangs := preloadedLangs h; loadingPromises := loadingPromises h;
     criticalKeys := criticalKeys h; loadTimeout := loadTimeout h;
     templateCache := templateCache h; localStorage := v;
     storageQuota := storageQuota h; navigatorLanguage := navigatorLanguage h;
     hasRequestIdleCallback := hasRequestIdleCallback h; clock := clock h;
     document := document h; loadingIndicator := loadingIndicator h |}.

Definition set_clock (v : Z) (h : Heap) : Heap :=
  {| translations := translations h; currentLang := currentLang h;
     defaultLang := defaultLang h;
     cache := cache h; initialized := initialized h; fallbackChain := fallbackChain h;
     preloadedLangs := preloadedLangs h; loadingPromises := loadingPromises h;
     criticalKeys := criticalKeys h; loadTimeout := loadTimeout h;
     templateCache := templateCache h; localStorage := localStorage h;
     storageQuota := storageQuota h; navigatorLanguage := navigatorLanguage h;
     hasRequestIdleCallback := hasRequestIdleCallback h; clock := v;
     document := document h; loadingIndicator := loadingIndicator h |}.

Definition set_document (v : Document) (h : Heap) : Heap :=
  {| translations := translations h; currentLang := currentLang h;
     defaultLang := defaultLang h;
     cache := cache h; initialized := initialized h; fallbackChain := fallbackChain h;
     preloadedLangs := preloadedLangs h; loadingPromises := loadingPromises h;
     criticalKeys := criticalKeys h; loadTimeout := loadTimeout h;
     templateCache := templateCache h; localStorage := localStorage h;
     storageQuota := storageQuota h; navigatorLanguage := navigatorLanguage h;
     hasRequestIdleCallback := hasRequestIdleCallback h; clock := clock h;
     document := v; loadingIndicator := loadingIndicator h |}.

Definition set_loadingIndicator (v : list bool) (h : Heap) : Heap :=
  {| translations := translations h; currentLang := currentLang h;
     defaultLang := defaultLang h;
     cache := cache h; initialized := initialized h; fallbackChain := fallbackChain h;
     preloadedLangs := preloadedLangs h; loadingPromises := loadingPromises h;
     criticalKeys := criticalKeys h; loadTimeout := loadTimeout h;
     templateCache := templateCache h; localStorage := localStorage h;
     storageQuota := storageQuota h; navigatorLanguage := navigatorLanguage h;
     hasRequestIdleCallback := hasRequestIdleCallback h; clock := clock h;
     document := document h; loadingIndicator := v |}.

(** The object literal [const i18n = { ... }] in a browser whose storage,
    quota, locale, idle-callback support, clock and page are given. *)
Definition i18n (storage : gmap string string) (quota : N) (language : string)
    (idle : bool) (now : Z) (page : Document) : Heap :=
  {| translations := ∅;
     currentLang := EmptyString;
     defaultLang := "en";
     cache := ∅;
     initialized := false;
     fallbackChain := ∅;
     preloadedLangs := [];
     loadingPromises := ∅;
     criticalKeys := {[ "pageTitle"; "greeting"; "confirmButton"; "questionTemplate" ]};
     loadTimeout := 3000;
     templateCache := None;
     localStorage := storage;
     storageQuota := quota;
     navigatorLanguage := language;
     hasRequestIdleCallback := idle;
     clock := now;
     document := page;
     loadingIndicator := [] |}.

(** ** [localStorage] *)

(** Size of the stored data, in characters of keys and values. *)
Definition storage_size (m : gmap string string) : N :=
  map_fold (fun k v acc => N.of_nat (String.length k) + N.of_nat (String.length v) + acc)%N
           0%N m.

Arguments storage_size : simpl never.

(** [localStorage.getItem(key)]: [None] is [null]. *)
Definition getItem (key : string) (h : Heap) : option string :=
  localStorage h !! key.

(** [localStorage.setItem(key, value)]: [None] when the browser throws
    [QuotaExceededError] and stores nothing. *)
Definition setItem (key value : string) (h : Heap) : option Heap :=
  let m := <[key := value]> (localStorage h) in
  if (storage_size m <=? storageQuota h)%N then Some (set_localStorage m h) else None.

(** ** Synchronous methods of [i18n] *)

(** [lang.split('-')[0]] *)
Fixpoint baseOf (s : string) : string :=
  match s with
  | EmptyString => EmptyString
  | String c s' => if Ascii.eqb c "-" then EmptyString else String c (baseOf s')
  end.

Definition setFallbackChain (h : Heap) : Heap :=
  let c1 := <["zh-CN" := ["zh-CN"; "zh"]]> (fallbackChain h) in
  let c2 := <["zh-TW" := ["zh-TW"; "zh"]]> c1 in
  let c3 := <["en-US" := ["en-US"; "en"]]> c2 in
  let c4 := <["en-GB" := ["en-GB"; "en"]]> c3 in
  set_fallbackChain c4 h.

Definition findAvailableLanguage (langCode : string) (h : Heap) : string :=
  let baseLang := baseOf langCode in
  if bool_decide (is_Some (fallbackChain h !! langCode)) then langCode
  else if bool_decide (is_Some (fallbackChain h !! baseLang)) then baseLang
  else langCode.

Definition loadFromLocalStorage (lang : string) (h : Heap) : Heap * bool :=
  let cacheKey := "i18n_" +:+ lang in
  match getItem cacheKey h with
  | Some cachedData =>
      if truthy_string cachedData then
        match JSON_parse cachedData with
        | Some parsedData =>
            let h1 := set_translations parsedData h in
            let h2 := set_cache (<[lang := parsedData]> (cache h1)) h1 in
            (h2, true)
        | None => (h, false)            (* caught: SyntaxError *)
        end
      else (h, false)
  | None => (h, false)
  end.

(** [30 * 24 * 60 * 60 * 1000] *)
Definition thirty_days : Z := 30 * 24 * 60 * 60 * 1000.

(** [{ ...this.translations, __timestamp: Date.now(), __ttl: ... }] *)
Definition cacheData (h : Heap) : ResourceSet :=
  <["__ttl" := JNum thirty_days]> (<["__timestamp" := JNum (clock h)]> (translations h)).

Definition saveToLocalStorage (lang : string) (h : Heap) : Heap :=
  let cacheKey := "i18n_" +:+ lang in
  match setItem cacheKey (JSON_stringify (cacheData h)) h with
  | Some h' => h'
  | None => h                           (* caught: QuotaExceededError *)
  end.

(** *** Members inherited from [Object.prototype]

    The objects the script indexes by a computed key, [this.translations]
    and the [data] of a template, are plain objects: a key they do not own
    is looked up in [Object.prototype].  Its members are functions, and
    [__proto__] is the prototype itself; all of them are truthy. *)
Definition Object_prototype : list string :=
  [ "constructor"; "__defineGetter__"; "__defineSetter__"; "hasOwnProperty";
    "__lookupGetter__"; "__lookupSetter__"; "isPrototypeOf"; "propertyIsEnumerable";
    "toString"; "valueOf"; "__proto__"; "toLocaleString" ].

Definition inherited (key : string) : bool := bool_decide (key ∈ Object_prototype).

(** The string an inherited member is coerced to: the source text of a
    built-in function as V8 prints it (other engines space it differently;
    it is never empty), and [[object Object]] for the prototype. *)
Definition inherited_text (key : string) : string :=
  if String.eqb key "__proto__" then "[object Object]"
  else "function " +:+ (if String.eqb key "constructor" then "Object" else key)
       +:+ "() { [native code] }".

Definition translate_element (only : option (gset string)) (tr : ResourceSet)
    (el : string * string) : string * string :=
  let key := el.1 in
  let wanted := match only with
                | Some keys => bool_decide (key ∈ keys)
                | None => true
                end in
  match tr !! key with
  | Some translation =>
      if wanted && truthy translation then (key, js_string translation) else el
  | None =>
      if wanted && inherited key then (key, inherited_text key) else el
  end.

Definition applyCriticalTranslations (h : Heap) : Heap :=
  let doc := document h in
  let title' := match translations h !! "pageTitle" with
                | Some v => if truthy v then js_string v else title doc
                | None => title doc
                end in
  set_document
    {| title := title';
       elements := translate_element (Some (criticalKeys h)) (translations h)
                     <$> elements doc |} h.

Definition applyTranslations (h : Heap) : Heap :=
  let doc := document h in
  set_document
    {| title := title doc;
       elements := translate_element None (translations h) <$> elements doc |} h.

Definition showLoadingIndicator (show : bool) (h : Heap) : Heap :=
  set_loadingIndicator (loadingIndicator h ++ [show])%list h.

Definition minimalTranslations : ResourceSet :=
  <["pageTitle" := JStr "Will you be my sweetheart?"]> (
  <["greeting" := JStr "What should I call you?"]> (
  <["confirmButton" := JStr "Confirm"]> (
  <["questionTemplate" := JStr "{username}? Will you be my love?"]> (
  <["loveMessage" := JStr "I love you! {username}"]> (
  <["yesButton" := JStr "Yes!"]> (
  <["noButton" := JStr "No..."]> (
  <["noTexts" := JArr [ "Wait, really?"; "My heart is cracking...";
                        "Please think again!"; "I'll cry a river...";
                        "Final answer?" ]]> ∅))))))).

Definition useMinimalFallbackTranslations (h : Heap) : Heap :=
  set_translations minimalTranslations h.

(** *** Template substitution *)

(** Tries to read [[^{}]+\}] at the head of [s]: the name, and what follows
    the closing brace.  An empty name is reported as [Some ("", _)]. *)
Fixpoint scan_name (s : string) : option (string * string) :=
  match s with
  | EmptyString => None
  | String c s' =>
      if Ascii.eqb c "}" then Some (EmptyString, s')
      else if Ascii.eqb c "{" then None
      else match scan_name s' with
           | Some (name, rest) => Some (String c name, rest)
           | None => None
           end
  end.

Definition inspect {A} (a : A) : {b | a = b} := exist _ a eq_refl.

(** [str.replace(/\{([^{}]+)\}/g, (match, key) => f key)] *)
Equations? replace_placeholders (f : string -> string) (s : string) : string
  by wf (String.length s) lt :=
  replace_placeholders f EmptyString := EmptyString;
  replace_placeholders f (String c s') with Ascii.eqb c "{" := {
    | false := String c (replace_placeholders f s');
    | true with inspect (scan_name s') := {
      | exist _ (Some (EmptyString, rest)) _ := String c (replace_placeholders f s');
      | exist _ (Some (String a name, rest)) _ :=
          f (String a name) +:+ replace_placeholders f rest;
      | exist _ None _ := String c (replace_placeholders f s') } }.
Proof.
  all: simpl; try lia.
  assert (H : forall u n r, scan_name u = Some (n, r) -> String.length r < String.length u).
  { clear. induction u as [|x u IH]; intros n r; simpl; [done|].
    destruct (Ascii.eqb x "}"); [intros [= <- <-]; lia|].
    destruct (Ascii.eqb x "{"); [done|].
    destruct (scan_name u) as [[n' r']|] eqn:E; [|done].
    intros [= <- <-]. specialize (IH _ _ eq_refl). lia. }
  apply H in e. lia.
Qed.

(** The string a returned value is coerced to when it is assigned to a
    property of an element. *)
Definition completion_text (c : Completion) : string :=
  match c with
  | Returned v => js_string v
  | ReturnedMember name => inherited_text name
  | Threw _ => EmptyString
  end.

(** [data[key] || ''], coerced to a string by [replace]. *)
Definition placeholder_value (data : gmap string string) (key : string) : string :=
  match data !! key with
  | Some value => js_or value EmptyString
  | None => if inherited key then inherited_text key else EmptyString
  end.

(** The replacement, for every placeholder of [str]. *)
Definition substitute (data : gmap string string) (str : string) : string :=
  replace_placeholders (placeholder_value data) str.

(** Calling the closure [(data) => str.replace(...)]: a captured value
    that is not a string has no [replace] method. *)
Definition run_compiled (c : CompiledTemplate) (data : gmap string string) : Completion :=
  match c with
  | Compiled (JStr s) => Returned (JStr (substitute data s))
  | Compiled _ => Threw TypeError
  end.

Definition template (str : JValue) (data : gmap string string) (h : Heap)
    : Heap * Completion :=
  let tc := default ∅ (templateCache h) in
  match tc !! str with
  | Some compiledTemplate =>
      (set_templateCache (Some tc) h, run_compiled compiledTemplate data)
  | None =>
      let compiledTemplate := Compiled str in
      (set_templateCache (Some (<[str := compiledTemplate]> tc)) h,
       run_compiled compiledTemplate data)
  end.

(** When [key] is not a key of the translations but the name of a member
    of [Object.prototype], [this.translations[key]] is that member: it is
    returned as it is, or handed to [template], whose closure throws at
    [str.replace].  The entry the template cache gets for the member is
    not represented: its key is no JSON value, and it is only found again
    by the same call, which throws in the same way. *)
Definition t (key : string) (data : gmap string string) (h : Heap) : Heap * Completion :=
  match translations h !! key with
  | Some translation =>
      if truthy translation then
        if Nat.ltb 0 (size data) then template translation data h
        else (h, Returned translation)
      else (h, Returned (JStr key))
  | None =>
      if inherited key then
        if Nat.ltb 0 (size data)
        then (set_templateCache (Some (default ∅ (templateCache h))) h, Threw TypeError)
        else (h, ReturnedMember key)
      else (h, Returned (JStr key))
  end.

(** ** Asynchronous methods: programs and the event loop *)

(** What the browser answers to [fetch(path)]: the call rejects, or it
    yields a response with a status and a body; [body] is the result of
    [response.json()]: the object the body holds, [None] when the body
    is not JSON.  A body that is JSON but no object ([null], a number) is
    not among the replies of the model. *)
#[projections(primitive)]
Record Response : Type := {
  status : Z;
  body : option ResourceSet
}.

Inductive Reply : Type :=
| FetchFailed
| Responded (r : Response).

(** [response.ok] *)
Definition response_ok (r : Response) : bool :=
  (200 <=? status r)%Z && (status r <? 300)%Z.

Inductive Settlement : Type :=
| Fulfilled
| Rejected (e : Error).

Inductive Delay : Type :=
| Timeout (ms : Z)                    (* setTimeout(f, ms) *)
| Idle (timeout : Z).                 (* requestIdleCallback(f, {timeout}) *)

(** The body of an [async] function, up to its next suspension. *)
Inductive Prog : Type :=
| Done                                                  (* return *)
| Throw (e : Error)
| Sync {B : Type} (m : Heap -> Heap * B) (k : B -> Prog) (* synchronous code *)
| Fetch (path : string) (k : Reply -> Prog)             (* await fetch(path), .json() *)
| Await (p : PromiseId) (k : Settlement -> Prog)        (* await p *)
| Race (body : Prog) (ms : Z) (e : Error) (k : PromiseId -> Prog)
    (* p = Promise.race([body(), rejectAfter(ms, e)]) *)
| Spawn (body : Prog) (k : Prog)                        (* body() without await *)
| Later (d : Delay) (body : Prog) (k : Prog).           (* setTimeout / idle callback *)

(** [p; q] *)
Fixpoint seq (p q : Prog) : Prog :=
  match p with
  | Done => q
  | Throw e => Throw e
  | Sync m k => Sync m (fun b => seq (k b) q)
  | Fetch path k => Fetch path (fun r => seq (k r) q)
  | Await a k => Await a (fun s => seq (k s) q)
  | Race body ms e k => Race body ms e (fun a => seq (k a) q)
  | Spawn body k => Spawn body (seq k q)
  | Later d body k => Later d body (seq k q)
  end.

(** [try { p } catch (e) { handler e }] *)
Fixpoint try_catch (p : Prog) (handler : Error -> Prog) : Prog :=
  match p with
  | Done => Done
  | Throw e => handler e
  | Sync m k => Sync m (fun b => try_catch (k b) handler)
  | Fetch path k => Fetch path (fun r => try_catch (k r) handler)
  | Await a k => Await a (fun s => try_catch (k s) handler)
  | Race body ms e k => Race body ms e (fun a => try_catch (k a) handler)
  | Spawn body k => Spawn body (try_catch k handler)
  | Later d body k => Later d body (try_catch k handler)
  end.

(** [try { p } finally { cleanup }] *)
Fixpoint try_finally (p : Prog) (cleanup : Prog) : Prog :=
  match p with
  | Done => cleanup
  | Throw e => seq cleanup (Throw e)
  | Sync m k => Sync m (fun b => try_finally (k b) cleanup)
  | Fetch path k => Fetch path (fun r => try_finally (k r) cleanup)
  | Await a k => Await a (fun s => try_finally (k s) cleanup)
  | Race body ms e k => Race body ms e (fun a => try_finally (k a) cleanup)
  | Spawn body k => Spawn body (try_finally k cleanup)
  | Later d body k => Later d body (try_finally k cleanup)
  end.

(** Synchronous statements. *)
Definition read {B : Type} (f : Heap -> B) (k : B -> Prog) : Prog :=
  Sync (fun h => (h, f h)) k.

Definition exec_ (f : Heap -> Heap) (k : Prog) : Prog :=
  Sync (fun h => (f h, tt)) (fun _ => k).

(** [await p] where [p] is a promise: resumes normally or rethrows. *)
Definition await (p : PromiseId) : Prog :=
  Await p (fun s => match s with
                    | Fulfilled => Done
                    | Rejected e => Throw e
                    end).

(** *** The event loop *)

#[projections(primitive)]
Record Request : Type := {
  req_path : string;
  req_k : Reply -> Prog;
  req_owner : option PromiseId
}.

Inductive Timer : Type :=
| RejectAfter (ms : Z) (p : PromiseId) (e : Error)
| Callback (d : Delay) (body : Prog).

#[projections(primitive)]
Record Waiter : Type := {
  wait_on : PromiseId;
  wait_k : Settlement -> Prog;
  wait_owner : option PromiseId
}.

(** The running page: the heap, the promises created so far ([None] is
    pending), the requests the network has not answered yet, the timers
    that have not fired, the functions suspended on a promise, and every
    path requested from the network so far. *)
#[projections(primitive)]
Record World : Type := {
  heap : Heap;
  promises : list (option Settlement);
  requests : list Request;
  timers : list Timer;
  waiters : list Waiter;
  requestLog : list string
}.

Definition set_heap (h : Heap) (w : World) : World :=
  {| heap := h; promises := promises w; requests := requests w; timers := timers w;
     waiters := waiters w; requestLog := requestLog w |}.

Definition set_promises (ps : list (option Settlement)) (w : World) : World :=
  {| heap := heap w; promises := ps; requests := requests w; timers := timers w;
     waiters := waiters w; requestLog := requestLog w |}.

Definition set_requests (rs : list Request) (w : World) : World :=
  {| heap := heap w; promises := promises w; requests := rs; timers := timers w;
     waiters := waiters w; requestLog := requestLog w |}.

Definition set_timers (ts : list Timer) (w : World) : World :=
  {| heap := heap w; promises := promises w; requests := requests w; timers := ts;
     waiters := waiters w; requestLog := requestLog w |}.

Definition set_waiters (ws : list Waiter) (w : World) : World :=
  {| heap := heap w; promises := promises w; requests := requests w; timers := timers w;
     waiters := ws; requestLog := requestLog w |}.

Definition issue_request (r : Request) (w : World) : World :=
  {| heap := heap w; promises := promises w; requests := requests w ++ [r];
     timers := timers w; waiters := waiters w;
     requestLog := requestLog w ++ [req_path r] |}.

(** Positions in the tables of the event loop. *)
Fixpoint nth_opt {A : Type} (l : list A) (i : nat) : option A :=
  match l with
  | [] => None
  | x :: l' => match i with
               | O => Some x
               | S i' => nth_opt l' i'
               end
  end.

Fixpoint remove_nth {A : Type} (l : list A) (i : nat) : list A :=
  match l with
  | [] => []
  | x :: l' => match i with
               | O => l'
               | S i' => x :: remove_nth l' i'
               end
  end.

Fixpoint update_nth {A : Type} (l : list A) (i : nat) (y : A) : list A :=
  match l with
  | [] => []
  | x :: l' => match i with
               | O => y :: l'
               | S i' => x :: update_nth l' i' y
               end
  end.

(** A page on which nothing is in flight. *)
Definition idle (h : Heap) : World :=
  {| heap := h; promises := []; requests := []; timers := []; waiters := [];
     requestLog := [] |}.

(** [Some s] once promise [p] is settled. *)
Definition outcome (p : PromiseId) (w : World) : option Settlement :=
  match nth_opt (promises w) p with
  | Some (Some s) => Some s
  | _ => None
  end.

(** Settles the promise of the function that just completed; a promise
    that is already settled keeps its first outcome. *)
Definition settle (owner : option PromiseId) (s : Settlement) (w : World) : World :=
  match owner with
  | Some p =>
      match nth_opt (promises w) p with
      | Some None => set_promises (update_nth (promises w) p (Some s)) w
      | _ => w
      end
  | None => w
  end.

(** Runs a function body until it completes or suspends. *)
Fixpoint exec (p : Prog) (owner : option PromiseId) (w : World) : World :=
  match p with
  | Done => settle owner Fulfilled w
  | Throw e => settle owner (Rejected e) w
  | Sync m k => let '(h, b) := m (heap w) in exec (k b) owner (set_heap h w)
  | Fetch path k =>
      issue_request {| req_path := path; req_k := k; req_owner := owner |} w
  | Await a k =>
      match outcome a w with
      | Some s => exec (k s) owner w
      | None =>
          set_waiters
            (waiters w ++ [{| wait_on := a; wait_k := k; wait_owner := owner |}]) w
      end
  | Race body ms e k =>
      let p := List.length (promises w) in
      let w1 := set_promises (promises w ++ [None]) w in
      let w2 := set_timers (timers w1 ++ [RejectAfter ms p e]) w1 in
      let w3 := exec body (Some p) w2 in
      exec (k p) owner w3
  | Spawn body k => exec k owner (exec body None w)
  | Later d body k => exec k owner (set_timers (timers w ++ [Callback d body]) w)
  end.

(** The first suspended function whose promise is settled, and the others. *)
Fixpoint find_ready (ws : list Waiter) (w : World)
    : option (Waiter * Settlement * list Waiter) :=
  match ws with
  | [] => None
  | x :: ws' =>
      match outcome (wait_on x) w with
      | Some s => Some (x, s, ws')
      | None =>
          match find_ready ws' w with
          | Some (y, s, rest) => Some (y, s, x :: rest)
          | None => None
          end
      end
  end.

(** Resumes suspended functions whose promise has settled (the job queue). *)
Fixpoint drain (fuel : nat) (w : World) : World :=
  match fuel with
  | O => w
  | S fuel' =>
      match find_ready (waiters w) w with
      | Some (x, s, rest) =>
          drain fuel' (exec (wait_k x s) (wait_owner x) (set_waiters rest w))
      | None => w
      end
  end.

(** Nothing is left to resume. *)
Definition quiescent (w : World) : Prop := find_ready (waiters w) w = None.

Definition settle_jobs (w : World) : World := drain (S (List.length (waiters w))) w.

Arguments exec !p owner !w.
Arguments drain !fuel !w.
Arguments settle_jobs !w /.

(** A call from the page (an event handler): the result promise of the call
    is the next free identifier. *)
Definition call (p : Prog) (w : World) : World :=
  let result := List.length (promises w) in
  settle_jobs (exec p (Some result) (set_promises (promises w ++ [None]) w)).

(** Events chosen by the environment; each carries the time at which it
    happens, read back by [Date.now()]. *)
Inductive Event : Type :=
| Arrive (now : Z) (i : nat) (r : Reply)   (* the i-th pending request is answered *)
| Fire (now : Z) (i : nat).                (* the i-th pending timer fires *)

Definition step (ev : Event) (w : World) : option World :=
  match ev with
  | Arrive now i r =>
      match nth_opt (requests w) i with
      | Some rq =>
          let w1 := set_heap (set_clock now (heap w))
                      (set_requests (remove_nth (requests w) i) w) in
          Some (settle_jobs (exec (req_k rq r) (req_owner rq) w1))
      | None => None
      end
  | Fire now i =>
      match nth_opt (timers w) i with
      | Some tm =>
          let w1 := set_heap (set_clock now (heap w))
                      (set_timers (remove_nth (timers w) i) w) in
          Some (settle_jobs
                  match tm with
                  | RejectAfter _ p e => settle (Some p) (Rejected e) w1
                  | Callback _ f => exec f None w1
                  end)
      | None => None
      end
  end.

Fixpoint run (evs : list Event) (w : World) : option World :=
  match evs with
  | [] => Some w
  | ev :: evs' =>
      match step ev w with
      | Some w' => run evs' w'
      | None => None
      end
  end.

(** Runs events until promise [p] is settled; later events are not looked at. *)
Fixpoint run_until (p : PromiseId) (evs : list Event) (w : World) : option World :=
  match outcome p w with
  | Some _ => Some w
  | None =>
      match evs with
      | [] => Some w
      | ev :: evs' =>
          match step ev w with
          | Some w' => run_until p evs' w'
          | None => None
          end
      end
  end.

(** *** The asynchronous methods of [i18n] *)

Equations? loadTranslations (lang : string) : Prog by wf (String.length lang) lt :=
  loadTranslations lang :=
    read (fun h => cache h !! lang) (fun cached =>
    match cached with
    | Some r => exec_ (set_translations r) Done
    | None =>
        let filePath := "i18n/" +:+ lang +:+ ".json" in
        try_catch
          (Fetch filePath (fun reply =>
             match reply with
             | FetchFailed => Throw NetworkError
             | Responded response =>
                 if negb (response_ok response) then Throw (HttpError (status response))
                 else
                   match body response with
                   | None => Throw SyntaxError
                   | Some r =>
                       exec_ (set_translations r) (
                       exec_ (fun h => set_cache (<[lang := translations h]> (cache h)) h)
                       Done)
                   end
             end))
          (fun error =>
             let baseLang := baseOf lang in
             match decide (baseLang = lang) with
             | right _ =>
                 read (fun h => cache h !! baseLang) (fun cachedBase =>
                 match cachedBase with
                 | Some r => exec_ (set_translations r) Done
                 | None =>
                     try_catch (loadTranslations baseLang)
                       (fun fallbackError => Throw (LoadFailed lang))
                 end)
             | left _ => Throw (LoadFailed lang)
             end)
    end).
Proof.
  clear -n. revert n. unfold baseLang. clear.
  induction lang as [|c s IH]; simpl; [done|].
  destruct (Ascii.eqb c "-"); simpl; [lia|].
  intros H. assert (Hs : baseOf s <> s) by congruence. specialize (IH Hs). lia.
Qed.

Definition loadTranslationsWithTimeout (lang : string) : Prog :=
  read (fun h => loadingPromises h !! lang) (fun pending =>
  match pending with
  | Some p => await p
  | None =>
      read loadTimeout (fun ms =>
      Race (loadTranslations lang) ms (TimeoutError lang) (fun loadPromise =>
      exec_ (fun h => set_loadingPromises (<[lang := loadPromise]> (loadingPromises h)) h) (
      seq (try_finally
             (await loadPromise)
             (exec_ (fun h => set_loadingPromises (delete lang (loadingPromises h)) h) Done))
          (await loadPromise))))
  end).

Definition refreshTranslationsInBackground (lang : string) : Prog :=
  Later (Timeout 1000)
    (try_catch
       (seq (loadTranslations lang) (
        exec_ (saveToLocalStorage lang) (
        exec_ applyTranslations Done)))
       (fun error => Done))
    Done.

Definition preloadOne (lang : string) (k : Prog) : Prog :=
  read (fun h => bool_decide (lang <> currentLang h)
                 && negb (bool_decide (lang ∈ preloadedLangs h))) (fun wanted =>
  if wanted then
    exec_ (fun h => set_preloadedLangs (preloadedLangs h ++ [lang]) h) (
    Spawn (try_catch (loadTranslations lang) (fun err => Done)) k)
  else k).

Definition preloadPopularLanguages (langCodes : list string) (k : Prog) : Prog :=
  match langCodes with
  | [] => k
  | _ =>
      read hasRequestIdleCallback (fun supported =>
      if supported
      then Later (Idle 5000) (foldr preloadOne Done langCodes) k
      else Later (Timeout 2000) (foldr preloadOne Done langCodes) k)
  end.

(** [localStorage.setItem(key, value)] as a statement that may throw. *)
Definition setItem_ (key value : string) (k : Prog) : Prog :=
  read (setItem key value) (fun stored =>
  match stored with
  | Some h' => exec_ (fun _ => h') k
  | None => Throw QuotaExceededError
  end).

Definition switchLanguage (lang : string) : Prog :=
  read (fun h => bool_decide (lang = currentLang h) && initialized h) (fun same =>
  if same then Done
  else
    exec_ (set_currentLang lang) (
    setItem_ "userLangPreference" lang (
    exec_ (showLoadingIndicator true) (
    try_finally
      (seq (loadTranslationsWithTimeout lang) (
       exec_ (saveToLocalStorage lang) (
       exec_ applyTranslations Done)))
      (exec_ (showLoadingIndicator false) Done))))).

Definition init : Prog :=
  exec_ setFallbackChain (
  read (fun h => default EmptyString (getItem "userLangPreference" h)) (fun userPref =>
  read (fun h => js_or (navigatorLanguage h) (defaultLang h)) (fun browserLang =>
  exec_ (fun h => set_currentLang (findAvailableLanguage (js_or userPref browserLang) h) h) (
  seq
    (try_catch
       (read currentLang (fun lang =>
        Sync (loadFromLocalStorage lang) (fun hasCached =>
        if hasCached then
          exec_ applyCriticalTranslations (
          read currentLang (fun lang => Spawn (refreshTranslationsInBackground lang) Done))
        else
          read currentLang (fun lang =>
          seq (loadTranslationsWithTimeout lang) (
          read currentLang (fun lang =>
          exec_ (saveToLocalStorage lang) Done))))))
       (fun error =>
          try_catch
            (read defaultLang (fun lang =>
             seq (loadTranslationsWithTimeout lang) (
             read defaultLang (fun lang =>
             exec_ (saveToLocalStorage lang) Done))))
            (fun defaultError => exec_ useMinimalFallbackTranslations Done)))
    (exec_ applyTranslations (
     exec_ (set_initialized true) (
     preloadPopularLanguages ["en"; "zh-CN"; "zh-TW"; "ja"; "ko"] Done))))))).

(** ** Vocabulary of the statements *)

(** The JSON document a reply carries, if the request succeeded
    ([response.ok] and a body that parses). *)
Definition reply_json (r : Reply) : option ResourceSet :=
  match r with
  | FetchFailed => None
  | Responded response => if response_ok response then body response else None
  end.

(** An event that is not the arrival of a successful reply. *)
Definition failing (ev : Event) : Prop :=
  match ev with
  | Arrive _ _ r => reply_json r = None
  | Fire _ _ => True
  end.

(** [`i18n/${lang}.json`] *)
Definition filePath (lang : string) : string := "i18n/" +:+ lang +:+ ".json".

(** The [catch] block of [loadTranslations lang]. *)
Definition fallback (lang : string) : Prog :=
  match decide (baseOf lang = lang) with
  | right _ =>
      read (fun h => cache h !! baseOf lang) (fun cachedBase =>
      match cachedBase with
      | Some r => exec_ (set_translations r) Done
      | None =>
          try_catch (loadTranslations (baseOf lang))
            (fun fallbackError => Throw (LoadFailed lang))
      end)
  | left _ => Throw (LoadFailed lang)
  end.

(** [loadTranslations lang] from the point where the network has answered. *)
Definition fetched (lang : string) (reply : Reply) : Prog :=
  try_catch
    match reply with
    | FetchFailed => Throw NetworkError
    | Responded response =>
        if negb (response_ok response) then Throw (HttpError (status response))
        else
          match body response with
          | None => Throw SyntaxError
          | Some r =>
              exec_ (set_translations r) (
              exec_ (fun h => set_cache (<[lang := translations h]> (cache h)) h)
              Done)
          end
    end
    (fun error => fallback lang).

(** The same for the request for the base language issued by the [catch]
    block of [loadTranslations lang]. *)
Definition fetchedBase (lang : string) (reply : Reply) : Prog :=
  try_catch (fetched (baseOf lang) reply) (fun fallbackError => Throw (LoadFailed lang)).

(** The two assignments made when the file of [lang] has been received. *)
Definition store (lang : string) (r : ResourceSet) (h : Heap) : Heap :=
  set_cache (<[lang := r]> (cache h)) (set_translations r h).

(** No brace occurs in [s]. *)
Fixpoint brace_free (s : string) : bool :=
  match s with
  | EmptyString => true
  | String c s' => negb (Ascii.eqb c "{") && negb (Ascii.eqb c "}") && brace_free s'
  end.

(** Every entry of the template cache is the closure compiled from its key:
    [template] is the only writer of the cache, and this is what it stores. *)
Definition templateCache_ok (h : Heap) : Prop :=
  forall tc str c, templateCache h = Some tc -> tc !! str = Some c -> c = Compiled str.



(** The orders in which [init] can come to request the files of a
    locale, of its base and of the default locale, up to its settlement:
    the base follows a failed reply for the locale, the default follows
    the failure or the timeout of the first load, whichever comes first. *)
Definition attempt_orders (locale : string) : list (list string) :=
  if decide (baseOf locale = locale)
  then [ [locale]; [locale; "en"] ]
  else [ [locale]; [locale; baseOf locale]; [locale; baseOf locale; "en"];
         [locale; "en"]; [locale; "en"; baseOf locale] ].

(** Every entry [i18n_<lang>] of the store was written by
    [saveToLocalStorage], the only writer of these keys in the script. *)
Definition written_by_saveToLocalStorage (storage : gmap string string) : Prop :=
  forall lang text,
    storage !! ("i18n_" +:+ lang) = Some text -> exists o, text = JSON_stringify o.

(** JSON white space, and the characters a JSON value can start with. *)
Definition json_whitespace (c : ascii) : bool :=
  Ascii.eqb c " " || Ascii.eqb c "009" || Ascii.eqb c "010" || Ascii.eqb c "013".

Fixpoint skip_whitespace (s : string) : string :=
  match s with
  | EmptyString => EmptyString
  | String c s' => if json_whitespace c then skip_whitespace s' else s
  end.

Definition json_start (c : ascii) : bool :=
  Ascii.eqb c "{" || Ascii.eqb c "[" || Ascii.eqb c dquote || is_number_char c
  || Ascii.eqb c "t" || Ascii.eqb c "f" || Ascii.eqb c "n".

(** A text no JSON value can be read from: after white space it is empty
    or starts with a character that starts no value.  [JSON.parse] throws
    a [SyntaxError] on it. *)
Definition cannot_be_json (text : string) : bool :=
  match skip_whitespace text with
  | EmptyString => true
  | String c _ => negb (json_start c)
  end.

(** A page used in the examples. *)
Definition page0 : Document :=
  {| title := "tang-love"; elements := [("greeting", EmptyString)] |}.

Definition hello : ResourceSet := {[ "greeting" := JStr "Hello" ]}.

Definition konnichiwa : ResourceSet := {[ "greeting" := JStr "Konnichiwa" ]}.

#[global] Arguments setItem : simpl never.
#[global] Arguments loadFromLocalStorage : simpl never.
#[global] Arguments saveToLocalStorage : simpl never.
#[global] Arguments baseOf : simpl never.
#[global] Arguments loadTranslations : simpl never.
#[global] Arguments outcome p w /.
#[global] Arguments fetched : simpl never.
#[global] Arguments fetchedBase : simpl never.
#[global] Arguments fallback : simpl never.
#[global] Arguments filePath : simpl never.
#[global] Arguments run : simpl never.
#[global] Arguments run_until : simpl never.
#[global] Arguments findAvailableLanguage : simpl never.
#[global] Arguments setFallbackChain : simpl never.
#[global] Arguments js_or : simpl never.
#[global] Arguments getItem : simpl never.
#[global] Arguments i18n : simpl never.
#[global] Arguments minimalTranslations : simpl never.

(** ** The page script *)

(** Whether a ["-"] occurs in [s]. *)
Fixpoint contains_dash (s : string) : bool :=
  match s with
  | EmptyString => false
  | String c s' => Ascii.eqb c "-" || contains_dash s'
  end.

(** *** [initLanguageSwitcher]

    The loop that fills the language selector, from the entries of
    [languages.json] in their order, each a code and its label.  The
    download of [languages.json] and the [change] listener, which calls
    [switchLanguage], are not part of this function. *)

#[projections(primitive)]
Record LanguageOption : Type := {
  option_value : string;
  option_label : string;
  option_selected : bool
}.

Definition initLanguageSwitcher (languages : list (string * string)) (h : Heap)
    : list LanguageOption :=
  let userPref := default EmptyString (getItem "userLangPreference" h) in
  let browserLang := js_or (navigatorLanguage h) "en" in
  let defaultLang := js_or browserLang userPref in
  (fun entry => {| option_value := entry.1;
                   option_label := entry.2;
                   option_selected := bool_decide (entry.1 = defaultLang) |})
    <$> languages.

(** *** The click handlers

    The elements the handlers write, each by the property that is
    assigned.  The [scale] of the Yes button, a floating-point number, is
    left out. *)

#[projections(primitive)]
Record Page : Type := {
  nameInput : string;            (* elements.nameInput.value *)
  questionText : string;         (* the string assigned to questionText.innerHTML *)
  nameInputContainer : string;   (* nameInputContainer.style.display *)
  confessionContainer : string;  (* confessionContainer.style.display *)
  buttonsClasses : list string;  (* classes added to the .buttons container *)
  clickCount : nat;
  noOffset : nat;                (* noButton: translateX(${noOffset}px) *)
  moveUp : nat;                  (* mainImage, questionText: translateY(-${moveUp}px) *)
  noButtonText : string;         (* noButton.innerText *)
  mainImage : string             (* mainImage.src *)
}.

(** The page when the handlers are installed: the name form is shown. *)
Definition page_loaded (name question noText image : string) : Page :=
  {| nameInput := name; questionText := question;
     nameInputContainer := "block"; confessionContainer := "none";
     buttonsClasses := []; clickCount := 0; noOffset := 0; moveUp := 0;
     noButtonText := noText; mainImage := image |}.

(** [elements.nameInput.value.substring(0, 20)] *)
Definition username (p : Page) : string := substring 0 20 (nameInput p).

(** The click handler of the confirm button.  When [questionTemplate] is
    not translated, [template] is called with [undefined] and throws at
    [str.replace]; by then it has created the template cache. *)
Definition confirmButton_click (s : Heap * Page) : Heap * Page * option Error :=
  let '(h, p) := s in
  match translations h !! "questionTemplate" with
  | Some str =>
      match template str {[ "username" := js_or (username p) EmptyString ]} h with
      | (h', Threw e) => (h', p, Some e)
      | (h', returned) =>
          (h',
           {| nameInput := nameInput p; questionText := completion_text returned;
              nameInputContainer := "none"; confessionContainer := "block";
              buttonsClasses := (buttonsClasses p ++ ["slide-up-fade-in"])%list;
              clickCount := clickCount p; noOffset := noOffset p; moveUp := moveUp p;
              noButtonText := noButtonText p; mainImage := mainImage p |},
           None)
      end
  | None =>
      (set_templateCache (Some (default ∅ (templateCache h))) h, p, Some TypeError)
  end.

(** [loveTest], called by the click handler of the Yes button. *)
Definition loveTest (name : string) (h : Heap) : Heap * Completion :=
  match translations h !! "loveMessage" with
  | Some str => template str {[ "username" := name ]} h
  | None => (set_templateCache (Some (default ∅ (templateCache h))) h, Threw TypeError)
  end.

Definition imageMap : gmap nat string :=
  {[ 1 := "assets/images/shocked.webp";
     2 := "assets/images/think.webp";
     3 := "assets/images/angry.webp";
     4 := "assets/images/crying.webp" ]}.

(** [noTexts[clickCount - 1]] under the guard
    [noTexts && clickCount <= noTexts.length], for [clickCount = S n].  A
    string has a length and is indexed by character; a number has no
    length, and the comparison with [undefined] fails. *)
Definition noTexts_entry (tr : ResourceSet) (n : nat) : option string :=
  match tr !! "noTexts" with
  | Some (JArr l) => if Nat.leb (S n) (List.length l) then l !! n else None
  | Some (JStr s) =>
      if Nat.leb (S n) (String.length s) then Some (substring n 1 s) else None
  | Some (JNum _) => None
  | None => None
  end.

(** The click handler of the No button. *)
Definition noButton_click (h : Heap) (p : Page) : Page :=
  let count := S (clickCount p) in
  {| nameInput := nameInput p; questionText := questionText p;
     nameInputContainer := nameInputContainer p;
     confessionContainer := confessionContainer p;
     buttonsClasses := buttonsClasses p;
     clickCount := count;
     noOffset := count * 50;
     moveUp := count * 25;
     noButtonText := default (noButtonText p) (noTexts_entry (translations h) (clickCount p));
     mainImage :=
       match imageMap !! count with
       | Some src => src
       | None => if Nat.leb 5 count then "assets/images/crying.webp" else mainImage p
       end |}.

(** [n] clicks on the No button in a row. *)
Definition noButton_clicks (n : nat) (h : Heap) (p : Page) : Page :=
  Nat.iter n (noButton_click h) p.

(** * Proofs *)

(** ** Strings *)

Lemma append_assoc' (a b c : string) : (a +:+ b) +:+ c = a +:+ (b +:+ c).
Proof.
  induction a as [|x a IH]; [done|].
  change (String x ((a +:+ b) +:+ c) = String x (a +:+ (b +:+ c))). by rewrite IH.
Qed.

Lemma append_cons (x : ascii) (a b : string) : String x a +:+ b = String x (a +:+ b).
Proof. reflexivity. Qed.

Lemma append_empty (b : string) : EmptyString +:+ b = b.
Proof. reflexivity. Qed.

Lemma parse_chars_escape_char c rest :
  parse_chars (escape_char c +:+ rest) = prepend c (parse_chars rest).
Proof.
  destruct c as [[|] [|] [|] [|] [|] [|] [|] [|]]; reflexivity.
Qed.

Lemma parse_chars_escape s rest :
  parse_chars (escape s +:+ String dquote rest) = Some (s, rest).
Proof.
  induction s as [|c s IH]; [reflexivity|].
  simpl escape. rewrite append_assoc', parse_chars_escape_char, IH. reflexivity.
Qed.

Lemma parse_quoted_quote s rest : parse_quoted (quote s +:+ rest) = Some (s, rest).
Proof.
  unfold quote, parse_quoted. rewrite append_cons, append_assoc', append_cons, append_empty.
  apply parse_chars_escape.
Qed.

Lemma span_number_uint d rest :
  starts_with_number_char rest = false ->
  span_number (NilEmpty.string_of_uint d +:+ rest) = (NilEmpty.string_of_uint d, rest).
Proof.
  intros Hrest.
  induction d; simpl NilEmpty.string_of_uint; rewrite ?append_cons, ?append_empty;
    simpl span_number; rewrite ?IHd; try reflexivity.
  destruct rest as [|c r]; [reflexivity|]. simpl in *. by rewrite Hrest.
Qed.

Lemma span_number_Z z rest :
  starts_with_number_char rest = false ->
  span_number (Z_to_string z +:+ rest) = (Z_to_string z, rest).
Proof.
  intros Hrest. unfold Z_to_string, NilZero.string_of_int, NilZero.string_of_uint.
  assert (Hnil : span_number ("0" +:+ rest) = ("0", rest)).
  { rewrite append_cons, append_empty. simpl.
    destruct rest as [|c r]; [reflexivity|]. simpl in *. by rewrite Hrest. }
  destruct (Z.to_int z) as [d|d].
  - destruct d; first [ exact Hnil | by apply span_number_uint ].
  - rewrite append_cons. simpl span_number.
    destruct d; first [ by rewrite Hnil | by rewrite span_number_uint ].
Qed.

Lemma Z_of_string_to_string z : Z_of_string (Z_to_string z) = Some z.
Proof.
  unfold Z_of_string, Z_to_string.
  assert (H : exists d, NilZero.int_of_string (NilZero.string_of_int (Z.to_int z)) = Some d
                        /\ Z.of_int d = z).
  { exists (Z.to_int z). split; [|apply DecimalZ.of_to].
    destruct z as [|p|p]; [reflexivity| |];
      apply NilZero.isi; unfold Z.to_int; intros [= E];
      by pose proof (DecimalPos.Unsigned.to_uint_nonnil p). }
  destruct H as (d & -> & ->). by rewrite String.eqb_refl.
Qed.

Lemma parse_number_Z z rest :
  starts_with_number_char rest = false ->
  parse_number (Z_to_string z +:+ rest) = Some (z, rest).
Proof.
  intros H. unfold parse_number. rewrite span_number_Z by done.
  by rewrite Z_of_string_to_string.
Qed.

Lemma length_append' (a b : string) :
  String.length (a +:+ b) = String.length a + String.length b.
Proof.
  induction a as [|x a IH]; [done|].
  rewrite append_cons. simpl. by rewrite IH.
Qed.

Lemma join_cons_cons sep (x y : string) l :
  join sep (x :: y :: l) = x +:+ sep +:+ join sep (y :: l).
Proof. reflexivity. Qed.

Lemma parse_items_join l rest fuel :
  l <> [] -> List.length l <= fuel ->
  parse_items fuel (join "," (quote <$> l) +:+ String "]" rest) = Some (l, rest).
Proof.
  revert fuel. induction l as [|x l IH]; intros fuel Hne Hfuel; [done|].
  destruct fuel as [|fuel]; [simpl in Hfuel; lia|].
  destruct l as [|y l].
  - change (join "," (quote <$> [x])) with (quote x).
    cbn [parse_items]. rewrite parse_quoted_quote. reflexivity.
  - rewrite fmap_cons, fmap_cons, join_cons_cons, <- fmap_cons.
    rewrite !append_assoc'. cbn [parse_items].
    rewrite parse_quoted_quote. rewrite append_cons, append_empty.
    change (Ascii.eqb "," ",") with true. cbv iota.
    rewrite IH; [done|done|simpl in *; lia].
Qed.

Lemma length_join_quote sep (l : list string) :
  List.length l <= String.length (join sep (quote <$> l)).
Proof.
  induction l as [|x l IH]; [simpl; lia|].
  destruct l as [|y l].
  - change (join sep (quote <$> [x])) with (quote x). unfold quote. simpl. lia.
  - rewrite fmap_cons, fmap_cons, join_cons_cons, <- fmap_cons.
    rewrite !length_append'. unfold quote at 1. simpl String.length at 1.
    simpl List.length in *. lia.
Qed.

Lemma parse_array_join l rest :
  parse_array ("[" +:+ join "," (quote <$> l) +:+ "]" +:+ rest) = Some (l, rest).
Proof.
  destruct l as [|x l]; [reflexivity|].
  assert (E : exists t, join "," (quote <$> (x :: l)) = String dquote t).
  { destruct l; [by eexists|]. rewrite fmap_cons, fmap_cons, join_cons_cons. by eexists. }
  destruct E as [t E].
  rewrite append_cons, append_empty.
  change ("]" +:+ rest) with (String "]" rest).
  pose proof (length_join_quote "," (x :: l)) as Hlen.
  pose proof (parse_items_join (x :: l) rest
                (String.length (join "," (quote <$> x :: l) +:+ String "]" rest))) as Hp.
  rewrite length_append' in Hp. specialize (Hp ltac:(done) ltac:(lia)).
  rewrite <- length_append' in Hp.
  revert Hp. rewrite E. rewrite append_cons. intros Hp.
  unfold parse_array. exact Hp.
Qed.

Lemma Z_to_string_head z :
  exists c t, Z_to_string z = String c t /\ is_number_char c = true.
Proof.
  unfold Z_to_string.
  assert (Hu : forall d, exists c t, NilZero.string_of_uint d = String c t
                                  /\ is_number_char c = true).
  { intros d; destruct d; by do 2 eexists. }
  destruct (Z.to_int z) as [d|d]; [apply Hu|].
  by do 2 eexists.
Qed.

Lemma parse_value_stringify v rest :
  starts_with_number_char rest = false ->
  parse_value (stringify_value v +:+ rest) = Some (v, rest).
Proof.
  intros Hrest. destruct v as [s|l|n]; unfold stringify_value.
  - pose proof (parse_quoted_quote s rest) as H. revert H.
    unfold quote. rewrite append_cons. intros H. unfold parse_value.
    rewrite Ascii.eqb_refl. by rewrite H.
  - rewrite !append_assoc'. pose proof (parse_array_join l rest) as H. revert H.
    rewrite (append_cons "["), append_empty. intros H.
    unfold parse_value. change (Ascii.eqb "[" dquote) with false.
    change (Ascii.eqb "[" "[") with true. cbv iota. by rewrite H.
  - destruct (Z_to_string_head n) as (c & t & E & Hc).
    pose proof (parse_number_Z n rest Hrest) as H. revert H.
    rewrite E, append_cons. intros H. unfold parse_value.
    assert (Ascii.eqb c dquote = false) as ->.
    { destruct (Ascii.eqb_spec c dquote) as [->|]; done. }
    assert (Ascii.eqb c "[" = false) as ->.
    { destruct (Ascii.eqb_spec c "[") as [->|]; done. }
    by rewrite H.
Qed.

Lemma parse_members_join (l : list (string * JValue)) rest fuel :
  l <> [] -> List.length l <= fuel ->
  parse_members fuel (join "," (stringify_member <$> l) +:+ String "}" rest) = Some (l, rest).
Proof.
  revert fuel. induction l as [|[k v] l IH]; intros fuel Hne Hfuel; [done|].
  destruct fuel as [|fuel]; [simpl in Hfuel; lia|].
  destruct l as [|y l].
  - change (join "," (stringify_member <$> [(k, v)]))
      with (quote k +:+ ":" +:+ stringify_value v).
    rewrite !append_assoc'. cbn [parse_members]. rewrite parse_quoted_quote.
    rewrite append_cons, append_empty.
    change (Ascii.eqb ":" ":") with true. cbv iota.
    rewrite parse_value_stringify by done. reflexivity.
  - rewrite fmap_cons, fmap_cons, join_cons_cons, <- fmap_cons.
    change (stringify_member (k, v)) with (quote k +:+ ":" +:+ stringify_value v).
    rewrite !append_assoc'. cbn [parse_members]. rewrite parse_quoted_quote.
    rewrite append_cons, append_empty.
    change (Ascii.eqb ":" ":") with true. cbv iota.
    rewrite (append_cons ","), append_empty.
    rewrite parse_value_stringify by done.
    change (Ascii.eqb "," ",") with true. cbv iota.
    rewrite IH; [done|done|simpl in *; lia].
Qed.

Lemma length_join_members sep (l : list (string * JValue)) :
  List.length l <= String.length (join sep (stringify_member <$> l)).
Proof.
  induction l as [|x l IH]; [simpl; lia|].
  destruct l as [|y l].
  - change (join sep (stringify_member <$> [x])) with (stringify_member x).
    unfold stringify_member, quote. rewrite append_cons. simpl. lia.
  - rewrite fmap_cons, fmap_cons, join_cons_cons, <- fmap_cons.
    rewrite !length_append'. unfold stringify_member at 1, quote.
    rewrite append_cons. simpl String.length at 1. simpl List.length in *. lia.
Qed.

Lemma JSON_parse_members u :
  JSON_parse (String "{" (String dquote u)) =
  match parse_members (String.length (String dquote u)) (String dquote u) with
  | Some (l, EmptyString) => Some (list_to_map (reverse l))
  | _ => None
  end.
Proof. reflexivity. Qed.

Theorem JSON_parse_stringify (o : ResourceSet) : JSON_parse (JSON_stringify o) = Some o.
Proof.
  unfold JSON_stringify.
  destruct (map_to_list o) as [|kv l] eqn:E.
  - apply map_to_list_empty_iff in E as ->. reflexivity.
  - assert (Hq : exists t, join "," (stringify_member <$> (kv :: l)) = String dquote t).
    { destruct l; [by eexists|].
      rewrite fmap_cons, fmap_cons, join_cons_cons. by eexists. }
    destruct Hq as [t Hq].
    pose proof (length_join_members "," (kv :: l)) as Hlen.
    pose proof (parse_members_join (kv :: l) EmptyString
       (String.length (join "," (stringify_member <$> kv :: l) +:+ String "}" EmptyString)))
       as Hp.
    rewrite length_append' in Hp. specialize (Hp ltac:(done) ltac:(lia)).
    rewrite <- length_append' in Hp.
    rewrite append_cons, append_empty. revert Hp. rewrite Hq, append_cons. intros Hp.
    rewrite JSON_parse_members, Hp. f_equal. rewrite <- E.
    rewrite <- (list_to_map_to_list o) at 2.
    apply list_to_map_proper; [|by rewrite reverse_Permutation].
    rewrite fmap_reverse, reverse_Permutation. apply NoDup_fst_map_to_list.
Qed.

(** ** Template substitution *)

Lemma replace_placeholders_cons f c s :
  replace_placeholders f (String c s) =
  if Ascii.eqb c "{" then
    match scan_name s with
    | Some (String a name, rest) => f (String a name) +:+ replace_placeholders f rest
    | _ => String c (replace_placeholders f s)
    end
  else String c (replace_placeholders f s).
Proof.
  simp replace_placeholders. destruct (Ascii.eqb c "{"); simpl; [|done].
  by destruct (scan_name s) as [[[|a name] rest]|].
Qed.

Lemma scan_name_shorter s name rest :
  scan_name s = Some (name, rest) -> String.length rest < String.length s.
Proof.
  revert name rest. induction s as [|x s IH]; intros name rest; simpl; [done|].
  destruct (Ascii.eqb x "}"); [intros [= <- <-]; lia|].
  destruct (Ascii.eqb x "{"); [done|].
  destruct (scan_name s) as [[n r]|] eqn:E; [|done].
  intros [= <- <-]. specialize (IH _ _ eq_refl). lia.
Qed.

(** A placeholder cannot start before a brace and end after it. *)
Lemma scan_name_app s t :
  scan_name (s +:+ String "{" t) =
  match scan_name s with
  | Some (name, rest) => Some (name, rest +:+ String "{" t)
  | None => None
  end.
Proof.
  induction s as [|x s IH]; [done|].
  rewrite append_cons. simpl.
  destruct (Ascii.eqb x "}"); [done|].
  destruct (Ascii.eqb x "{"); [done|].
  rewrite IH. by destruct (scan_name s) as [[n r]|].
Qed.

Lemma replace_placeholders_app f s t :
  replace_placeholders f (s +:+ String "{" t) =
  replace_placeholders f s +:+ replace_placeholders f (String "{" t).
Proof.
  remember (String.length s) as n eqn:Hn. revert s Hn.
  induction n as [n IH] using lt_wf_ind. intros s ->.
  destruct s as [|c s]; [by rewrite replace_placeholders_equation_1|].
  rewrite append_cons, !(replace_placeholders_cons f c).
  destruct (Ascii.eqb c "{").
  - rewrite scan_name_app.
    destruct (scan_name s) as [[[|a name] rest]|] eqn:E.
    + rewrite append_cons. f_equal. apply (IH (String.length s)); [simpl; lia|done].
    + apply scan_name_shorter in E as Hlt.
      rewrite (IH (String.length rest)), append_assoc'; [done|simpl; lia|done].
    + rewrite append_cons. f_equal. apply (IH (String.length s)); [simpl; lia|done].
  - rewrite append_cons. f_equal. apply (IH (String.length s)); [simpl; lia|done].
Qed.

Lemma scan_name_placeholder name rest :
  brace_free name = true -> scan_name (name +:+ String "}" rest) = Some (name, rest).
Proof.
  induction name as [|c name IH]; [done|].
  rewrite append_cons. simpl. intros H.
  destruct (Ascii.eqb c "{"); [done|]. destruct (Ascii.eqb c "}"); [done|].
  simpl in H. by rewrite IH.
Qed.

Lemma replace_placeholders_placeholder f name rest :
  name <> EmptyString -> brace_free name = true ->
  replace_placeholders f (String "{" (name +:+ String "}" rest)) =
  f name +:+ replace_placeholders f rest.
Proof.
  intros Hne Hbf. rewrite replace_placeholders_cons. simpl.
  rewrite scan_name_placeholder by done. by destruct name.
Qed.

(** ** Synchronous methods *)

Lemma baseOf_cons c s :
  baseOf (String c s) = if Ascii.eqb c "-" then EmptyString else String c (baseOf s).
Proof. reflexivity. Qed.

Lemma baseOf_idem s : baseOf (baseOf s) = baseOf s.
Proof.
  induction s as [|c s IH]; [done|].
  rewrite baseOf_cons. destruct (Ascii.eqb c "-") eqn:E; [done|].
  by rewrite baseOf_cons, E, IH.
Qed.

Lemma baseOf_shorter s : baseOf s <> s -> String.length (baseOf s) < String.length s.
Proof.
  induction s as [|c s IH]; [done|].
  rewrite baseOf_cons. destruct (Ascii.eqb c "-"); simpl; [lia|].
  intros H. assert (Hs : baseOf s <> s) by congruence. specialize (IH Hs). lia.
Qed.

Lemma append_inj_r (a b s : string) : a +:+ s = b +:+ s -> a = b.
Proof.
  revert b. induction a as [|x a IH]; intros [|y b] E.
  - done.
  - exfalso. apply (f_equal String.length) in E.
    rewrite !length_append' in E. simpl in E. lia.
  - exfalso. apply (f_equal String.length) in E.
    rewrite !length_append' in E. simpl in E. lia.
  - rewrite !append_cons in E. injection E as -> E. f_equal. by apply IH.
Qed.

Lemma filePath_inj a b : filePath a = filePath b -> a = b.
Proof. unfold filePath. intros E. apply String.app_inj in E. by apply append_inj_r in E. Qed.

Lemma setItem_Some key value h h' :
  setItem key value h = Some h' ->
  h' = set_localStorage (<[key := value]> (localStorage h)) h.
Proof. unfold setItem. by destruct (_ <=? _)%N; intros [= <-]. Qed.

Lemma truthy_JSON_stringify o : truthy_string (JSON_stringify o) = true.
Proof. reflexivity. Qed.

Lemma loadFromLocalStorage_hit lang h text parsed :
  getItem ("i18n_" +:+ lang) h = Some text ->
  truthy_string text = true ->
  JSON_parse text = Some parsed ->
  loadFromLocalStorage lang h = (store lang parsed h, true).
Proof. intros E1 E2 E3. unfold loadFromLocalStorage. by rewrite E1, E2, E3. Qed.

Lemma findAvailableLanguage_initial lang storage quota language idlecb now page :
  findAvailableLanguage lang (setFallbackChain (i18n storage quota language idlecb now page))
  = lang.
Proof.
  unfold findAvailableLanguage.
  destruct (bool_decide (is_Some (_ !! lang))); [done|].
  destruct (bool_decide _) eqn:E; [|done].
  apply bool_decide_eq_true in E. exfalso.
  unfold setFallbackChain, i18n in E. simpl in E.
  pose proof (baseOf_idem lang) as Hi.
  destruct (decide (baseOf lang = "en-GB")) as [E1|N1]; [by rewrite E1 in Hi|].
  destruct (decide (baseOf lang = "en-US")) as [E2|N2]; [by rewrite E2 in Hi|].
  destruct (decide (baseOf lang = "zh-TW")) as [E3|N3]; [by rewrite E3 in Hi|].
  destruct (decide (baseOf lang = "zh-CN")) as [E4|N4]; [by rewrite E4 in Hi|].
  rewrite !lookup_insert_ne, lookup_empty in E by done. by destruct E.
Qed.

Lemma template_result str data h :
  templateCache_ok h ->
  (template str data h).2 = run_compiled (Compiled str) data.
Proof.
  intros Hok. unfold template.
  destruct (templateCache h) as [tc|] eqn:Etc; simpl.
  - destruct (tc !! str) as [c|] eqn:Ec; [|done]. by rewrite (Hok _ _ _ Etc Ec).
  - by rewrite lookup_empty.
Qed.


(** ** The event loop *)

Lemma run_cons ev evs w :
  run (ev :: evs) w = match step ev w with
                      | Some w' => run evs w'
                      | None => None
                      end.
Proof. reflexivity. Qed.

Lemma run_nil w : run [] w = Some w.
Proof. reflexivity. Qed.

Lemma run_until_settled p evs w s :
  outcome p w = Some s -> run_until p evs w = Some w.
Proof. intros E. destruct evs; unfold run_until; by rewrite E. Qed.

Lemma run_until_pending p ev evs w :
  outcome p w = None ->
  run_until p (ev :: evs) w = match step ev w with
                              | Some w' => run_until p evs w'
                              | None => None
                              end.
Proof.
  intros E. change (run_until p (ev :: evs) w)
    with (match outcome p w with
          | Some _ => Some w
          | None => match step ev w with
                    | Some w' => run_until p evs w'
                    | None => None
                    end
          end).
  by rewrite E.
Qed.

Lemma run_until_nil p w : run_until p [] w = Some w.
Proof. unfold run_until. by destruct (outcome p w). Qed.

(** ** [loadTranslations] *)

Lemma loadTranslations_body lang :
  loadTranslations lang =
  read (fun h => cache h !! lang) (fun cached =>
    match cached with
    | Some r => exec_ (set_translations r) Done
    | None => Fetch (filePath lang) (fetched lang)
    end).
Proof. rewrite loadTranslations_equation_1. reflexivity. Qed.

Lemma exec_loadTranslations lang owner w :
  exec (loadTranslations lang) owner w =
  match cache (heap w) !! lang with
  | Some r => settle owner Fulfilled (set_heap (set_translations r (heap w)) w)
  | None => issue_request {| req_path := filePath lang; req_k := fetched lang;
                             req_owner := owner |} w
  end.
Proof.
  rewrite loadTranslations_body. destruct w as [h ps rs ts ws lg]. simpl.
  by destruct (cache h !! lang).
Qed.

Lemma exec_fetched_ok lang r j owner w :
  reply_json r = Some j ->
  exec (fetched lang r) owner w = settle owner Fulfilled (set_heap (store lang j (heap w)) w).
Proof.
  intros Hr. unfold fetched. destruct r as [|resp]; [done|]. simpl in Hr.
  destruct (response_ok resp); [|done]. rewrite Hr.
  destruct w as [h ps rs ts ws lg]. reflexivity.
Qed.

Lemma fetched_fail lang r :
  reply_json r = None -> fetched lang r = fallback lang.
Proof.
  intros Hr. unfold fetched. destruct r as [|resp]; [done|]. simpl in Hr.
  destruct (response_ok resp); [|done]. by rewrite Hr.
Qed.

Lemma fallback_base lang : fallback (baseOf lang) = Throw (LoadFailed (baseOf lang)).
Proof.
  unfold fallback. destruct (decide _) as [|Hne]; [done|].
  by destruct Hne; apply baseOf_idem.
Qed.

Lemma exec_fallback lang owner w :
  exec (fallback lang) owner w =
  if decide (baseOf lang = lang) then settle owner (Rejected (LoadFailed lang)) w
  else match cache (heap w) !! baseOf lang with
       | Some r => settle owner Fulfilled (set_heap (set_translations r (heap w)) w)
       | None =>
           issue_request
             {| req_path := filePath (baseOf lang); req_k := fetchedBase lang;
                req_owner := owner |} w
       end.
Proof.
  unfold fallback. destruct w as [h ps rs ts ws lg].
  destruct (decide _); [reflexivity|]. simpl.
  destruct (cache h !! baseOf lang) eqn:E; simpl; [reflexivity|].
  rewrite loadTranslations_body. simpl. rewrite E. reflexivity.
Qed.

Lemma exec_fetchedBase_ok lang r j owner w :
  reply_json r = Some j ->
  exec (fetchedBase lang r) owner w =
  settle owner Fulfilled (set_heap (store (baseOf lang) j (heap w)) w).
Proof.
  intros Hr. unfold fetchedBase, fetched. destruct r as [|resp]; [done|]. simpl in Hr.
  destruct (response_ok resp); [|done]. rewrite Hr.
  destruct w as [h ps rs ts ws lg]. reflexivity.
Qed.

Lemma fetchedBase_fail lang r :
  reply_json r = None -> fetchedBase lang r = Throw (LoadFailed lang).
Proof.
  intros Hr. unfold fetchedBase. rewrite (fetched_fail _ _ Hr), fallback_base. reflexivity.
Qed.

Lemma count_one lang : count_occ string_dec [filePath lang] (filePath lang) = 1.
Proof. cbn [count_occ]. by destruct (string_dec _ _). Qed.

Lemma count_two lang :
  baseOf lang <> lang ->
  count_occ string_dec [filePath lang; filePath (baseOf lang)] (filePath lang) = 1.
Proof.
  intros Hne. cbn [count_occ].
  destruct (string_dec (filePath lang) (filePath lang)); [|done].
  destruct (string_dec (filePath (baseOf lang)) (filePath lang)) as [E|]; [|done].
  by apply filePath_inj in E.
Qed.

(** *** Stepping through a run *)

Ltac settled H :=
  match type of H with
  | run_until ?p ?evs ?w = _ => rewrite (run_until_settled p evs w _ eq_refl) in H
  end.

(* the next event of a run that is followed until a promise settles *)
Ltac next_event H evs :=
  let now := fresh "now" in let i := fresh "i" in let r := fresh "r" in
  destruct evs as [|[now i r|now i] evs];
  [ rewrite run_until_nil in H | rewrite run_until_pending in H by reflexivity
  | rewrite run_until_pending in H by reflexivity ].

(* the next event of a run that is followed to its end *)
Ltac node H evs :=
  let now := fresh "now" in let i := fresh "i" in let r := fresh "r" in
  destruct evs as [|[now i r|now i] evs];
  [ rewrite run_nil in H; injection H as <-
  | rewrite run_cons in H | rewrite run_cons in H ].

(* a request of a load, or the request for its base language, fails *)
Ltac lang_fails H :=
  match goal with
  | Hr : reply_json _ = None |- _ => rewrite (fetched_fail _ _ Hr), exec_fallback in H
  end.

Ltac base_fails H :=
  match goal with
  | Hr : reply_json _ = None |- _ => rewrite (fetchedBase_fail _ _ Hr) in H
  end.


(** ** Exploring the runs of a call *)

Lemma saveToLocalStorage_frame lang h :
  exists storage, saveToLocalStorage lang h = set_localStorage storage h.
Proof.
  unfold saveToLocalStorage, setItem. destruct (_ <=? _)%N; by eexists.
Qed.

Lemma loadFromLocalStorage_absent lang h :
  getItem ("i18n_" +:+ lang) h = None -> loadFromLocalStorage lang h = (h, false).
Proof. intros E. unfold loadFromLocalStorage. by rewrite E. Qed.

(* Suspended continuations are kept behind a name while the world is
   simplified, and looked at when they are resumed. *)
Ltac hide_waiters H :=
  repeat match type of H with
         | context [Build_Waiter ?on ?k ?owner] =>
             lazymatch k with
             | (fun _ => _) => let kv := fresh "k" in remember k as kv in H
             end
         end.

Ltac resume_waiter H :=
  match type of H with
  | context [exec (?kv _) _ _] => is_var kv; subst kv
  end.

(* a look into the memory cache of the heap the call started from *)
Ltac cache_lookup H :=
  match type of H with
  | context [cache ?h !! ?k] =>
      is_var h;
      lazymatch goal with
      | E : cache h !! k = _ |- _ => fail
      | _ => destruct (cache h !! k) eqn:?
      end
  end.

Ltac tidy H :=
  repeat progress
    (simpl in H;
     repeat match goal with
            | E : cache _ = ∅ |- _ => rewrite E in H
            | E : loadingPromises _ = ∅ |- _ => rewrite E in H
            | E : defaultLang _ = _ |- _ => rewrite E in H
            | E : cache _ !! _ = _ |- _ => rewrite E in H
            | E : loadingPromises _ !! _ = _ |- _ => rewrite E in H
            end;
     rewrite ?lookup_empty, ?delete_insert_eq, ?delete_empty, ?exec_loadTranslations in H;
     try resume_waiter H;
     try cache_lookup H);
  hide_waiters H.

(* the world once the call has settled: what was saved is of no interest *)
Ltac settle H :=
  repeat match type of H with
         | context [saveToLocalStorage ?l ?h] =>
             let m := fresh "m" in let Hm := fresh "Hm" in
             destruct (saveToLocalStorage_frame l h) as [m Hm]; rewrite Hm in H; clear Hm
         end;
  tidy H;
  try (match type of H with
       | context [hasRequestIdleCallback ?h] => destruct (hasRequestIdleCallback h)
       end; tidy H);
  settled H; injection H as <-.

(* a reply to a request: it carries a document, or the request has failed *)
Ltac replied H :=
  match goal with
  | r : Reply |- _ =>
      lazymatch type of H with
      | context [exec (fetched ?l r)] =>
          let Hr := fresh "Hr" in
          destruct (reply_json r) as [?|] eqn:Hr;
          [ try (match goal with
                 | Hf : Some _ = None |- _ => discriminate Hf
                 end);
            rewrite (exec_fetched_ok _ _ _ _ _ Hr) in H
          | rewrite (fetched_fail _ _ Hr), exec_fallback in H;
            let N := fresh "N" in
            destruct (decide (baseOf l = l)) as [?|N]; [|try (by destruct N)] ]
      | context [exec (fetchedBase ?l r)] =>
          let Hr := fresh "Hr" in
          destruct (reply_json r) as [?|] eqn:Hr;
          [ try (match goal with
                 | Hf : Some _ = None |- _ => discriminate Hf
                 end);
            rewrite (exec_fetchedBase_ok _ _ _ _ _ Hr) in H
          | rewrite (fetchedBase_fail _ _ Hr) in H ]
      end
  end.

(* the next event of a run in which no request succeeds is a failure *)
Ltac next_fails :=
  try match goal with
      | HF : Forall failing (_ :: _) |- _ =>
          let Hf := fresh "Hf" in let HF' := fresh "HF" in
          apply Forall_cons in HF; destruct HF as [Hf HF']; simpl in Hf
      end.

(* Every run of the call whose promise is number 0, followed until the
   promise settles: [at_end] closes the goal at each world the run can
   stop in. *)
Ltac explore fuel H evs at_end :=
  lazymatch fuel with
  | O => fail "out of fuel"
  | S ?fuel' =>
      tidy H;
      lazymatch type of H with
      | run_until 0 _ (Build_World _ (None :: _) _ _ _ _) = _ =>
          let now := fresh "now" in let i := fresh "i" in let r := fresh "r" in
          destruct evs as [|[now i r|now i] evs];
          [ rewrite run_until_nil in H; injection H as <-; at_end
          | next_fails; rewrite run_until_pending in H by reflexivity;
            destruct i as [|[|i]]; simpl in H;
            [ first [ done | replied H; explore fuel' H evs at_end ]
            | first [ done | replied H; explore fuel' H evs at_end ]
            | done ]
          | next_fails; rewrite run_until_pending in H by reflexivity;
            destruct i as [|[|i]]; simpl in H;
            [ first [ done | explore fuel' H evs at_end ]
            | first [ done | explore fuel' H evs at_end ]
            | done ] ]
      | _ => settle H; at_end
      end
  end.

(* The same for a run that is followed to its end. *)
Ltac explore_run fuel H evs at_end :=
  lazymatch fuel with
  | O => fail "out of fuel"
  | S ?fuel' =>
      tidy H;
      let now := fresh "now" in let i := fresh "i" in let r := fresh "r" in
      destruct evs as [|[now i r|now i] evs];
      [ rewrite run_nil in H; injection H as <-; at_end
      | rewrite run_cons in H;
        destruct i as [|[|i]]; simpl in H;
        [ first [ done | replied H; explore_run fuel' H evs at_end ]
        | first [ done | replied H; explore_run fuel' H evs at_end ]
        | done ]
      | rewrite run_cons in H;
        destruct i as [|[|i]]; simpl in H;
        [ first [ done | explore_run fuel' H evs at_end ]
        | first [ done | explore_run fuel' H evs at_end ]
        | done ] ]
  end.

(* [init] on a fresh page, up to its first suspension, when the durable
   cache has no entry for the language *)
Ltac enter_init H Habs L h1 :=
  unfold call, init in H; simpl in H;
  rewrite findAvailableLanguage_initial in H;
  match type of H with
  | context [getItem "userLangPreference" (setFallbackChain (i18n ?s ?q ?l ?c ?n ?p))] =>
      change (getItem "userLangPreference" (setFallbackChain (i18n s q l c n p)))
        with (s !! "userLangPreference") in H;
      fold L in H;
      let Hh1 := fresh "Hh1" in
      remember (setFallbackChain (i18n s q l c n p)) as h1 eqn:Hh1;
      assert (cache h1 = ∅) by (by subst h1);
      assert (loadingPromises h1 = ∅) by (by subst h1);
      assert (defaultLang h1 = "en") by (by subst h1);
      rewrite (loadFromLocalStorage_absent L (set_currentLang L h1)) in H
        by (subst h1; exact Habs);
      clear Hh1 Habs; clearbody L
  end.

(** ** [init] without a durable entry *)

(* one of the orders of [attempt_orders L] *)
Ltac is_order L order :=
  exists order; split; [|reflexivity];
  unfold attempt_orders; destruct (decide (baseOf L = L)); try done;
  repeat first [apply list_elem_of_here | apply list_elem_of_further].

Ltac init_end L :=
  simpl; split; [reflexivity|]; split;
  [ first [ is_order L [L] | is_order L [L; baseOf L] | is_order L [L; baseOf L; "en"]
          | is_order L [L; "en"] | is_order L [L; "en"; baseOf L] ]
  | first [ exact I
          | split; [reflexivity|]; split; [reflexivity|];
            first [ left; reflexivity
                  | right; eexists; unfold store; simpl; apply lookup_insert_eq ] ] ].

(* Every run of [init] on a fresh page whose durable cache has no entry
   for the selected language, up to the settlement of [init], whatever the
   replies are. *)
Lemma init_without_a_durable_entry storage quota language idlecb now page evs W :
  let L := js_or (default EmptyString (storage !! "userLangPreference"))
                 (js_or language "en") in
  storage !! ("i18n_" +:+ L) = None ->
  run_until 0 evs (call init (idle (i18n storage quota language idlecb now page))) = Some W ->
  currentLang (heap W) = L /\
  (exists order, order ∈ attempt_orders L /\ requestLog W = filePath <$> order) /\
  match outcome 0 W with
  | None => True
  | Some s =>
      s = Fulfilled /\
      initialized (heap W) = true /\
      (translations (heap W) = minimalTranslations \/
       exists lang, cache (heap W) !! lang = Some (translations (heap W)))
  end.
Proof.
  intros L Habs H.
  enter_init H Habs L h1.
  explore 12 H evs ltac:(init_end L).
Qed.

(** * The claims *)

(** ** C1: TTL expiry *)

(** C1 (the code does not do what the claim says).  An entry written by
    [saveToLocalStorage] at time 0 carries [__timestamp = 0] and the 30-day
    [__ttl]; a page loaded at [now = storedAt + ttl + 1] reads it with
    [loadFromLocalStorage], which returns [true] and installs the stored
    object as the active translations: the entry is served, not treated
    as a miss. *)
Example C1_expired_entry_is_served :
  let written :=
    saveToLocalStorage "en" (set_translations hello (i18n ∅ 100000 "en" true 0 page0)) in
  let later := i18n (localStorage written) 100000 "en" true (0 + thirty_days + 1) page0 in
  getItem "i18n_en" later =
    Some (JSON_stringify (<["__ttl" := JNum thirty_days]> (<["__timestamp" := JNum 0]> hello)))
  /\ (clock later = 0 + thirty_days + 1)%Z
  /\ (loadFromLocalStorage "en" later).2 = true
  /\ translations (loadFromLocalStorage "en" later).1 =
       <["__ttl" := JNum thirty_days]> (<["__timestamp" := JNum 0]> hello)
  /\ cache (loadFromLocalStorage "en" later).1 !! "en" =
       Some (<["__ttl" := JNum thirty_days]> (<["__timestamp" := JNum 0]> hello)).
Proof. intros written later. repeat apply conj; vm_compute; reflexivity. Qed.

(** ** C4: cache round trip *)

(** C4 (counterexample).  Writing the set [{greeting: "Hello"}] for "en" at
    time 5 and reading it back at once does not return that set: the result
    also holds [__timestamp] and [__ttl]. *)
Example C4_round_trip_adds_reserved_fields :
  let h := set_clock 5 (set_translations hello (i18n ∅ 100000 "en" true 0 page0)) in
  let read_back := loadFromLocalStorage "en" (saveToLocalStorage "en" h) in
  read_back.2 = true /\
  translations read_back.1 <> hello /\
  translations read_back.1 !! "__timestamp" = Some (JNum 5) /\
  hello !! "__timestamp" = None.
Proof.
  assert (forall m : gmap string JValue, m !! "__timestamp" = Some (JNum 5) -> m <> hello) as Hne.
  { intros m Hm E. rewrite E in Hm. vm_compute in Hm. discriminate Hm. }
  intros h read_back.
  assert (translations read_back.1 !! "__timestamp" = Some (JNum 5)) as Hts
    by (vm_compute; reflexivity).
  split; [vm_compute; reflexivity|].
  split; [by apply Hne|]. split; [exact Hts|reflexivity].
Qed.

(** C4 (amended).  When the store accepts the write, [saveToLocalStorage]
    followed at once by [loadFromLocalStorage] is a hit, and the set it
    installs (as active translations and in the memory cache) is the
    written set extended with [__timestamp], the time of the write, and
    [__ttl], thirty days; on every other key it agrees with the written
    set. *)
Theorem C4_read_after_write lang h :
  is_Some (setItem ("i18n_" +:+ lang) (JSON_stringify (cacheData h)) h) ->
  let read_back := loadFromLocalStorage lang (saveToLocalStorage lang h) in
  read_back.2 = true /\
  translations read_back.1 = cacheData h /\
  cache read_back.1 !! lang = Some (cacheData h) /\
  translations read_back.1 !! "__timestamp" = Some (JNum (clock h)) /\
  translations read_back.1 !! "__ttl" = Some (JNum thirty_days) /\
  forall key, key <> "__timestamp" -> key <> "__ttl" ->
              translations read_back.1 !! key = translations h !! key.
Proof.
  intros [h' Hset]. unfold saveToLocalStorage. rewrite Hset.
  apply setItem_Some in Hset. subst h'.
  erewrite loadFromLocalStorage_hit;
    [| unfold getItem; simpl; apply lookup_insert_eq
     | apply truthy_JSON_stringify | apply JSON_parse_stringify ].
  unfold store, cacheData. simpl.
  repeat split.
  - apply lookup_insert_eq.
  - rewrite lookup_insert_ne by done. apply lookup_insert_eq.
  - apply lookup_insert_eq.
  - intros key H1 H2. by rewrite !lookup_insert_ne.
Qed.

(** C4 (witness): the set [{greeting: "Hello"}] written for "en" at time 5. *)
Lemma C4_read_after_write_witness :
  let h := set_clock 5 (set_translations hello (i18n ∅ 100000 "en" true 0 page0)) in
  let read_back := loadFromLocalStorage "en" (saveToLocalStorage "en" h) in
  read_back.2 = true /\
  translations read_back.1 = cacheData h /\
  cache read_back.1 !! "en" = Some (cacheData h) /\
  translations read_back.1 !! "__timestamp" = Some (JNum (clock h)) /\
  translations read_back.1 !! "__ttl" = Some (JNum thirty_days) /\
  forall key, key <> "__timestamp" -> key <> "__ttl" ->
              translations read_back.1 !! key = translations h !! key.
Proof.
  apply (C4_read_after_write "en"
           (set_clock 5 (set_translations hello (i18n ∅ 100000 "en" true 0 page0)))).
  vm_compute. eexists. reflexivity.
Defined.

(** ** C7, C8, C10: the lookup [t] and [template] *)




(** C8 (counterexample).  With the built-in minimal set active, [noTexts]
    is present and is an array: [t "noTexts"] with a substitution throws a
    [TypeError], and without one it returns the array, not a string.  And
    a key that is absent from the set but names a member of
    [Object.prototype] is not returned as it is: [t "toString"] with a
    substitution throws a [TypeError], and [t "constructor"] without one
    returns the member, a function. *)
Example C8_array_translation_throws :
  let h := useMinimalFallbackTranslations (i18n ∅ 100000 "en" true 0 page0) in
  is_Some (translations h !! "noTexts") /\
  (t "noTexts" {[ "username" := "Ada" ]} h).2 = Threw TypeError /\
  (t "noTexts" ∅ h).2 =
    Returned (JArr [ "Wait, really?"; "My heart is cracking..."; "Please think again!";
                     "I'll cry a river..."; "Final answer?" ]) /\
  translations h !! "toString" = None /\
  (t "toString" {[ "username" := "Ada" ]} h).2 = Threw TypeError /\
  translations h !! "constructor" = None /\
  (t "constructor" ∅ h).2 = ReturnedMember "constructor".
Proof. intros h. repeat apply conj; [by eexists|vm_compute; reflexivity..]. Qed.

(** C8 (amended).  For every key whose value in the active set is a
    string, or that is absent from it and does not name a member of
    [Object.prototype], and every substitution map, [t] does not throw and
    returns a string; for the absent key that string is the key. *)
Theorem C8_lookup_of_strings_returns_a_string h key (data : gmap string string) :
  templateCache_ok h ->
  (translations h !! key = None /\ inherited key = false) \/
  (exists s, translations h !! key = Some (JStr s)) ->
  exists result, (t key data h).2 = Returned (JStr result) /\
                 (translations h !! key = None -> result = key).
Proof.
  intros Hok [[Hnone Hown]|[s Hs]]; unfold t.
  - rewrite Hnone, Hown. by exists key.
  - rewrite Hs. destruct (truthy (JStr s)); [|by exists key].
    destruct (Nat.ltb 0 (size data)).
    + rewrite template_result by done. simpl. eexists. split; [reflexivity|done].
    + by exists s.
Qed.

(** C8 (witness): a present string key and an absent key of the minimal set. *)
Lemma C8_lookup_of_strings_returns_a_string_witness :
  let h := useMinimalFallbackTranslations (i18n ∅ 100000 "en" true 0 page0) in
  (exists result, (t "greeting" {[ "username" := "Ada" ]} h).2 = Returned (JStr result) /\
                  (translations h !! "greeting" = None -> result = "greeting")) /\
  (exists result, (t "missing" ∅ h).2 = Returned (JStr result) /\
                  (translations h !! "missing" = None -> result = "missing")).
Proof.
  split.
  - apply C8_lookup_of_strings_returns_a_string;
      [intros tc str c E; discriminate E|right; by eexists].
  - apply C8_lookup_of_strings_returns_a_string;
      [intros tc str c E; discriminate E|left; split; reflexivity].
Defined.

(** C10 (counterexample).  A key that is present with the empty string as
    its translation: [t] returns the key, not the stored string. *)
Example C10_empty_translation_returns_the_key :
  let h := set_translations {[ "greeting" := JStr EmptyString ]}
             (i18n ∅ 100000 "en" true 0 page0) in
  translations h !! "greeting" = Some (JStr EmptyString) /\
  (t "greeting" ∅ h).2 = Returned (JStr "greeting").
Proof. intros h. split; vm_compute; reflexivity. Qed.

(** C10 (amended).  For every key whose stored value is truthy (a
    non-empty string, in particular), [t] with the empty substitution map
    returns the stored value as it is, placeholders included, and leaves
    the state alone. *)
Theorem C10_verbatim_without_substitutions h key v :
  translations h !! key = Some v ->
  truthy v = true ->
  t key ∅ h = (h, Returned v).
Proof. intros Hk Ht. unfold t. by rewrite Hk, Ht. Qed.

(** C10 (witness): [questionTemplate] of the minimal set keeps its
    placeholder. *)
Lemma C10_verbatim_without_substitutions_witness :
  let h := useMinimalFallbackTranslations (i18n ∅ 100000 "en" true 0 page0) in
  t "questionTemplate" ∅ h = (h, Returned (JStr "{username}? Will you be my love?")).
Proof.
  apply (C10_verbatim_without_substitutions
           (useMinimalFallbackTranslations (i18n ∅ 100000 "en" true 0 page0))
           "questionTemplate"); reflexivity.
Defined.

(** ** C9: a failed switch *)

(* nothing of the switch is left that could change the translations *)
Ltac c9_permanent :=
  let Ee := fresh "Ee" in
  intros Ee;
  first
    [ discriminate Ee
    | split; [reflexivity|];
      let evs' := fresh "evs" in let W' := fresh "W" in let H' := fresh "H" in
      intros evs' W' H';
      explore_run 4 H' evs' ltac:(simpl; split; reflexivity) ].

Ltac c9_end :=
  let Hout := fresh "Hout" in let He := fresh "He" in
  simpl; intros Hout He;
  first
    [ discriminate Hout
    | injection Hout as <-;
      first
        [ by destruct He
        | unfold getItem; simpl; rewrite ?lookup_insert_eq, <- ?app_assoc;
          do 4 (split; [done|]); c9_permanent ] ].

(** C9 (counterexample).  The translations are [hello]; the switch to
    "ja" is rejected by the timeout at 3000, with the translations still
    [hello]; the reply for [i18n/ja.json] arrives at 3500 and replaces
    them, although the switch has failed. *)
Example C9_late_reply_replaces_the_translations :
  let h := set_translations hello (i18n ∅ 100000 "en" true 0 page0) in
  let r := Responded {| status := 200; body := Some konnichiwa |} in
  let W1 := run [Fire 3000 0] (call (switchLanguage "ja") (idle h)) in
  let W2 := run [Fire 3000 0; Arrive 3500 0 r] (call (switchLanguage "ja") (idle h)) in
  (W1 ≫= outcome 0) = Some (Rejected (TimeoutError "ja")) /\
  (translations <$> (heap <$> W1)) = Some hello /\
  (W2 ≫= outcome 0) = Some (Rejected (TimeoutError "ja")) /\
  (translations <$> (heap <$> W2)) = Some konnichiwa /\
  konnichiwa <> hello.
Proof.
  intros h r W1 W2. repeat apply conj; try (vm_compute; reflexivity).
  intros E. apply (f_equal (fun m : gmap string JValue => m !! "greeting")) in E.
  vm_compute in E. discriminate E.
Qed.

(** C9 (amended).  A switch to [lang] on a page where nothing else is in
    flight.  When the call returns to the event loop with its request
    pending, [currentLang] and the stored preference are already [lang]
    and the indicator is on.  When its promise is rejected because the
    load failed or timed out, the active translations are at that moment
    those from before the call, [currentLang] and the stored preference
    are [lang], and the indicator was switched on and then off.  After a
    load failure nothing of the switch is left pending but its timer, and
    the translations stay as they are in every continuation of the run;
    after a timeout the request is still pending. *)
Theorem C9_failed_switch h lang :
  (bool_decide (lang = currentLang h) && initialized h = false ->
   is_Some (setItem "userLangPreference" lang (set_currentLang lang h)) ->
   loadingPromises h !! lang = None ->
   cache h !! lang = None ->
   let W0 := call (switchLanguage lang) (idle h) in
   outcome 0 W0 = None /\
   requestLog W0 = [filePath lang] /\
   List.length (requests W0) = 1 /\
   currentLang (heap W0) = lang /\
   getItem "userLangPreference" (heap W0) = Some lang /\
   loadingIndicator (heap W0) = (loadingIndicator h ++ [true])%list /\
   translations (heap W0) = translations h) /\
  (forall evs W e,
     run_until 0 evs (call (switchLanguage lang) (idle h)) = Some W ->
     outcome 0 W = Some (Rejected e) ->
     e = LoadFailed lang \/ e = TimeoutError lang ->
     translations (heap W) = translations h /\
     currentLang (heap W) = lang /\
     getItem "userLangPreference" (heap W) = Some lang /\
     loadingIndicator (heap W) = (loadingIndicator h ++ [true; false])%list /\
     (e = LoadFailed lang ->
      requests W = [] /\
      forall evs' W',
        run evs' W = Some W' ->
        translations (heap W') = translations h /\
        outcome 0 W' = Some (Rejected (LoadFailed lang)))).
Proof.
  split.
  - intros Hsame [h' Hset] Hp Hc.
    unfold call, switchLanguage. simpl. rewrite Hsame. simpl. rewrite Hset.
    apply setItem_Some in Hset. subst h'. simpl. rewrite Hp. simpl.
    rewrite exec_loadTranslations. simpl. rewrite Hc. simpl.
    unfold getItem. simpl. by rewrite lookup_insert_eq.
  - intros evs W e H.
    unfold call, switchLanguage in H. simpl in H.
    destruct (bool_decide (lang = currentLang h) && initialized h).
    { simpl in H. settled H. injection H as <-. c9_end. }
    simpl in H. destruct (setItem _ _ _) as [h'|] eqn:Hset.
    2:{ simpl in H. settled H. injection H as <-. c9_end. }
    apply setItem_Some in Hset. subst h'. simpl in H.
    destruct (loadingPromises h !! lang) as [p|] eqn:Hp.
    { simpl in H. destruct p as [|p]; simpl in H.
      - next_event H evs; [injection H as <-; c9_end|simpl in H; by destruct i..].
      - next_event H evs; [injection H as <-; c9_end|simpl in H; by destruct i..]. }
    explore 8 H evs c9_end.
Qed.

(** C9 (witness): switching to "ja" when the request for [i18n/ja.json]
    fails. *)
Lemma C9_failed_switch_witness :
  let h := set_translations hello (i18n ∅ 100000 "en" true 0 page0) in
  let W0 := call (switchLanguage "ja") (idle h) in
  (outcome 0 W0 = None /\
   requestLog W0 = [filePath "ja"] /\
   List.length (requests W0) = 1 /\
   currentLang (heap W0) = "ja" /\
   getItem "userLangPreference" (heap W0) = Some "ja" /\
   loadingIndicator (heap W0) = (loadingIndicator h ++ [true])%list /\
   translations (heap W0) = translations h) /\
  match run_until 0 [Arrive 40 0 FetchFailed] W0 with
  | Some W =>
      outcome 0 W = Some (Rejected (LoadFailed "ja")) /\
      translations (heap W) = translations h /\
      currentLang (heap W) = "ja" /\
      getItem "userLangPreference" (heap W) = Some "ja" /\
      loadingIndicator (heap W) = (loadingIndicator h ++ [true; false])%list /\
      requests W = []
  | None => False
  end.
Proof.
  intros h W0. destruct (C9_failed_switch h "ja") as [Hfirst Hfail].
  split.
  - apply Hfirst; [reflexivity|vm_compute; by eexists|reflexivity|reflexivity].
  - assert (Hrun : (run_until 0 [Arrive 40 0 FetchFailed] W0 ≫= outcome 0)
                   = Some (Rejected (LoadFailed "ja"))) by (vm_compute; reflexivity).
    destruct (run_until 0 _ W0) as [W|] eqn:E; [|discriminate Hrun].
    simpl in Hrun. split; [exact Hrun|].
    destruct (Hfail _ W (LoadFailed "ja") E Hrun) as (H1 & H2 & H3 & H4 & H5); [by left|].
    destruct (H5 eq_refl) as [H6 _].
    exact (conj H1 (conj H2 (conj H3 (conj H4 H6)))).
Defined.

(** ** C2: a reply after the timeout *)




(** ** C5: one request for concurrent loads *)

Ltac chk :=
  unfold store; simpl;
  rewrite ?lookup_delete_eq, ?lookup_insert_eq;
  split; [first [apply count_one | by apply count_two]|done].

(* nothing left to happen *)
Ltac dead H evs :=
  node H evs; [chk | simpl in H; done | simpl in H; done].

(* only the timer of the race is left *)
Ltac only_timer H evs :=
  node H evs;
  [ chk | simpl in H; done
  | match goal with i : nat |- _ => destruct i as [|i]; simpl in H; [dead H evs|done] end ].

(* only the request for the base language is left *)
Ltac only_base H evs Hr :=
  node H evs;
  [ chk
  | match goal with
    | i : nat, r : Reply |- _ =>
        destruct i as [|i]; simpl in H; [|done];
        destruct (reply_json r) as [?|] eqn:Hr;
        [ rewrite (exec_fetchedBase_ok _ _ _ _ _ Hr) in H
        | rewrite (fetchedBase_fail _ _ Hr) in H ];
        simpl in H; dead H evs
    end
  | simpl in H; done ].

(* a further call made while the first is pending *)
Ltac c5_second_call :=
  let Hout := fresh "Hout" in
  let W' := fresh "W'" in
  intros Hout W'; subst W'; simpl in Hout;
  first
    [ discriminate Hout
    | unfold call, loadTranslationsWithTimeout; simpl;
      rewrite ?lookup_insert_eq; simpl; rewrite ?lookup_insert_eq; done ].

(** C5 (counterexample).  A page in English without a durable entry: the
    timer of the first load of "en" fires at 3000 while its request is
    pending, and [init] loads the default language, "en" again.  Two
    requests for [i18n/en.json] are then pending at once, under one
    in-flight record. *)
Example C5_timeout_ends_the_deduplication :
  let h0 := i18n ∅ 100000 "en" true 0 page0 in
  let W := run [Fire 3000 0] (call init (idle h0)) in
  (requestLog <$> W) = Some [filePath "en"; filePath "en"] /\
  ((fun w => req_path <$> requests w) <$> W) = Some [filePath "en"; filePath "en"] /\
  ((fun w => loadingPromises (heap w) !! "en") <$> W) = Some (Some 2) /\
  (W ≫= outcome 0) = None.
Proof. intros h0 W. repeat apply conj; vm_compute; reflexivity. Qed.

(** C5 (amended).  [loadTranslationsWithTimeout lang] for a language that
    is neither cached nor in flight, on a page where nothing else is in
    flight.  A second call made right after the first issues no request:
    at every later point of every run the file of [lang] has been
    requested once; as long as the shared promise (number 1) is pending,
    the in-flight record of [lang] names it and neither call has settled;
    once it has settled, whether fulfilled or rejected, the record is gone
    and both calls have settled in the same way.  And a second call made
    at any later point at which the first call is still pending issues no
    request either and waits for the same promise.  (Once the first call
    has settled the record is gone, also when it was settled by the timer
    and its request is still pending.) *)
Theorem C5_deduplication h lang :
  loadingPromises h !! lang = None ->
  cache h !! lang = None ->
  let w1 := call (loadTranslationsWithTimeout lang) (idle h) in
  let w2 := call (loadTranslationsWithTimeout lang) w1 in
  requestLog w2 = [filePath lang] /\
  (forall evs W,
     run evs w2 = Some W ->
     count_occ string_dec (requestLog W) (filePath lang) = 1 /\
     match outcome 1 W with
     | None => loadingPromises (heap W) !! lang = Some 1 /\
               outcome 0 W = None /\ outcome 2 W = None
     | Some s => loadingPromises (heap W) !! lang = None /\
                 outcome 0 W = Some s /\ outcome 2 W = Some s
     end) /\
  (forall evs W,
     run evs w1 = Some W ->
     outcome 0 W = None ->
     let W' := call (loadTranslationsWithTimeout lang) W in
     requestLog W' = requestLog W /\
     requests W' = requests W /\
     outcome (List.length (promises W)) W' = None /\
     loadingPromises (heap W') !! lang = Some 1).
Proof.
  intros Hp Hc w1 w2. subst w2 w1.
  split; [|split]; cycle 2.
  { intros evs W H.
    unfold call, loadTranslationsWithTimeout in H. simpl in H. rewrite Hp in H. simpl in H.
    rewrite exec_loadTranslations in H. simpl in H. rewrite Hc in H. simpl in H.
    explore_run 6 H evs c5_second_call. }
  { unfold call, loadTranslationsWithTimeout. simpl. rewrite Hp. simpl.
    rewrite exec_loadTranslations. simpl. rewrite Hc. simpl.
    rewrite lookup_insert_eq. simpl. reflexivity. }
  intros evs W H.
  unfold call, loadTranslationsWithTimeout in H. simpl in H. rewrite Hp in H. simpl in H.
  rewrite exec_loadTranslations in H. simpl in H. rewrite Hc in H. simpl in H.
  rewrite lookup_insert_eq in H. simpl in H.
  node H evs; [chk| |].
  - destruct i as [|i]; simpl in H; [|done].
    destruct (reply_json r) as [j|] eqn:Hr.
    { rewrite (exec_fetched_ok _ _ _ _ _ Hr) in H. simpl in H. only_timer H evs. }
    rewrite (fetched_fail _ _ Hr), exec_fallback in H.
    destruct (decide (baseOf lang = lang)) as [Hb|Hb].
    { simpl in H. only_timer H evs. }
    simpl in H. destruct (cache h !! baseOf lang) as [g|] eqn:Hcb.
    { simpl in H. only_timer H evs. }
    simpl in H. node H evs; [chk| |].
    + destruct i as [|i]; simpl in H; [|done].
      destruct (reply_json r0) as [j|] eqn:Hr0.
      { rewrite (exec_fetchedBase_ok _ _ _ _ _ Hr0) in H. simpl in H. only_timer H evs. }
      rewrite (fetchedBase_fail _ _ Hr0) in H. simpl in H. only_timer H evs.
    + destruct i as [|i]; simpl in H; [|done].
      only_base H evs Hr0.
  - destruct i as [|i]; simpl in H; [|done].
    node H evs; [chk| |simpl in H; done].
    destruct i as [|i]; simpl in H; [|done].
    destruct (reply_json r) as [j|] eqn:Hr.
    { rewrite (exec_fetched_ok _ _ _ _ _ Hr) in H. simpl in H. dead H evs. }
    rewrite (fetched_fail _ _ Hr), exec_fallback in H.
    destruct (decide (baseOf lang = lang)) as [Hb|Hb].
    { simpl in H. dead H evs. }
    simpl in H. destruct (cache h !! baseOf lang) as [g|] eqn:Hcb.
    { simpl in H. dead H evs. }
    simpl in H. only_base H evs Hr0.
Qed.

(** C5 (witness): loads of "ja" on a fresh page. *)
Lemma C5_deduplication_witness :
  let h := i18n ∅ 100000 "en" true 0 page0 in
  let w1 := call (loadTranslationsWithTimeout "ja") (idle h) in
  let w2 := call (loadTranslationsWithTimeout "ja") w1 in
  requestLog w2 = [filePath "ja"] /\
  (forall evs W,
     run evs w2 = Some W ->
     count_occ string_dec (requestLog W) (filePath "ja") = 1 /\
     match outcome 1 W with
     | None => loadingPromises (heap W) !! "ja" = Some 1 /\
               outcome 0 W = None /\ outcome 2 W = None
     | Some s => loadingPromises (heap W) !! "ja" = None /\
                 outcome 0 W = Some s /\ outcome 2 W = Some s
     end) /\
  (forall evs W,
     run evs w1 = Some W ->
     outcome 0 W = None ->
     let W' := call (loadTranslationsWithTimeout "ja") W in
     requestLog W' = requestLog W /\
     requests W' = requests W /\
     outcome (List.length (promises W)) W' = None /\
     loadingPromises (heap W') !! "ja" = Some 1).
Proof.
  intros h. apply (C5_deduplication h "ja"); reflexivity.
Defined.

(** ** C6: initialisation when every request fails *)




(** ** C3: the locales that are tried *)




(** * Further properties of the code *)

(** ** Locale codes and the fallback chain *)

Lemma contains_dash_baseOf s : contains_dash (baseOf s) = false.
Proof.
  induction s as [|c s IH]; [done|].
  rewrite baseOf_cons. destruct (Ascii.eqb c "-") eqn:E; [done|].
  simpl. by rewrite E, IH.
Qed.

(** X1.  [lang.split('-')[0]]: the base of a locale code holds no ["-"],
    it is a prefix of the code, what follows it is empty or starts with
    ["-"], and it is the code itself exactly when the code holds no ["-"]. *)
Theorem baseOf_is_the_prefix_before_the_first_dash s :
  contains_dash (baseOf s) = false /\
  (exists rest, s = baseOf s +:+ rest /\
                (rest = EmptyString \/ exists rest', rest = String "-" rest')) /\
  (baseOf s = s <-> contains_dash s = false).
Proof.
  split; [apply contains_dash_baseOf|]. split.
  - induction s as [|c s (rest & IH & Hrest)]; [exists EmptyString; by split; [|left]|].
    rewrite baseOf_cons. destruct (Ascii.eqb c "-") eqn:E.
    + apply Ascii.eqb_eq in E. subst c. exists (String "-" s). split; [done|]. right. by eexists.
    + exists rest. split; [|done]. rewrite append_cons. by rewrite <- IH.
  - split.
    + intros <-. apply contains_dash_baseOf.
    + induction s as [|c s IH]; [done|]. simpl. rewrite baseOf_cons.
      destruct (Ascii.eqb c "-"); [done|]. simpl. intros H. by rewrite IH.
Qed.

(** X2.  When every key of the fallback chain holds a ["-"],
    [findAvailableLanguage] returns the code it is given: the branch that
    returns the base language is never taken. *)
Theorem findAvailableLanguage_is_the_identity h langCode :
  map_Forall (fun key _ => baseOf key <> key) (fallbackChain h) ->
  findAvailableLanguage langCode h = langCode.
Proof.
  intros Hkeys. unfold findAvailableLanguage.
  destruct (bool_decide (is_Some (_ !! langCode))); [done|].
  destruct (bool_decide _) eqn:E; [|done].
  apply bool_decide_eq_true in E as [chain E].
  apply Hkeys in E. by rewrite baseOf_idem in E.
Qed.

(** X2 (witness): the chain that [setFallbackChain] installs on the
    initial object, and the code "zh-HK". *)
Lemma findAvailableLanguage_is_the_identity_witness :
  findAvailableLanguage "zh-HK" (setFallbackChain (i18n ∅ 100000 "zh-HK" true 0 page0))
  = "zh-HK".
Proof.
  apply findAvailableLanguage_is_the_identity.
  refine (bool_decide_unpack _ _). vm_compute. exact I.
Defined.

Ltac insert_lookup :=
  repeat first [rewrite lookup_insert_eq | rewrite lookup_insert_ne by done].

(** X3.  [setFallbackChain] can be called again without effect, it
    changes nothing but the chain, and afterwards the chain has the four
    regional codes and keeps every other key it had. *)
Theorem setFallbackChain_is_idempotent h :
  setFallbackChain (setFallbackChain h) = setFallbackChain h /\
  set_fallbackChain (fallbackChain (setFallbackChain h)) h = setFallbackChain h /\
  (forall key, key ∈ ["zh-CN"; "zh-TW"; "en-US"; "en-GB"] ->
               is_Some (fallbackChain (setFallbackChain h) !! key)) /\
  (forall key, key ∉ ["zh-CN"; "zh-TW"; "en-US"; "en-GB"] ->
               fallbackChain (setFallbackChain h) !! key = fallbackChain h !! key).
Proof.
  repeat apply conj.
  - unfold setFallbackChain. simpl.
    apply (f_equal (fun chain => set_fallbackChain chain h)). apply map_eq. intros key.
    destruct (decide (key = "en-GB")) as [->|?]; [by insert_lookup|].
    destruct (decide (key = "en-US")) as [->|?]; [by insert_lookup|].
    destruct (decide (key = "zh-TW")) as [->|?]; [by insert_lookup|].
    destruct (decide (key = "zh-CN")) as [->|?]; [by insert_lookup|].
    by insert_lookup.
  - reflexivity.
  - intros key Hk. unfold setFallbackChain. simpl.
    repeat (apply elem_of_cons in Hk as [->|Hk]; [insert_lookup; by eexists|]).
    by apply elem_of_nil in Hk.
  - intros key Hk. unfold setFallbackChain. simpl.
    rewrite !lookup_insert_ne; [done|intros <-; apply Hk; set_solver..].
Qed.

(** ** The durable cache *)

Lemma JSON_parse_starts_with_a_brace text :
  is_Some (JSON_parse text) -> exists s, text = String "{" s.
Proof.
  intros [o Ho]. destruct text as [|c s]; [discriminate Ho|].
  destruct (Ascii.eqb_spec c "{") as [->|Hc]; [by eexists|].
  exfalso. revert Ho. unfold JSON_parse.
  destruct c as [[] [] [] [] [] [] [] []]; try discriminate; by destruct Hc.
Qed.

(** X4.  An entry no JSON value can be read from (it is empty, or after
    white space it is empty or starts with a character that starts no
    value) is a miss that changes nothing: the entry is falsy, or the
    [SyntaxError] of [JSON.parse] is caught. *)
Theorem loadFromLocalStorage_ignores_a_corrupt_entry lang text h :
  getItem ("i18n_" +:+ lang) h = Some text ->
  cannot_be_json text = true ->
  loadFromLocalStorage lang h = (h, false).
Proof.
  intros Hget Hbad. unfold loadFromLocalStorage. rewrite Hget.
  destruct (truthy_string text); [|done].
  destruct (JSON_parse text) as [o|] eqn:Hparse; [|done].
  destruct (JSON_parse_starts_with_a_brace text) as [s ->]; [by eexists|].
  discriminate Hbad.
Qed.

(** X4 (witness): an entry holding the text [undefined]. *)
Lemma loadFromLocalStorage_ignores_a_corrupt_entry_witness :
  let h := i18n {[ "i18n_en" := "undefined" ]} 100000 "en" true 0 page0 in
  loadFromLocalStorage "en" h = (h, false).
Proof.
  intros h.
  apply (loadFromLocalStorage_ignores_a_corrupt_entry "en" "undefined" h); reflexivity.
Defined.

(** X5.  [saveToLocalStorage] changes nothing but the store, and in the
    store nothing but the entry of the language; it swallows the quota
    error, leaving the store as it was; and a store within its quota stays
    within it. *)
Theorem saveToLocalStorage_respects_the_quota lang h :
  let h' := saveToLocalStorage lang h in
  set_localStorage (localStorage h') h = h' /\
  (forall key, key <> "i18n_" +:+ lang -> getItem key h' = getItem key h) /\
  (getItem ("i18n_" +:+ lang) h' = Some (JSON_stringify (cacheData h)) \/ h' = h) /\
  ((storage_size (localStorage h) <= storageQuota h)%N ->
   (storage_size (localStorage h') <= storageQuota h')%N).
Proof.
  unfold saveToLocalStorage, setItem.
  destruct (_ <=? _)%N eqn:E; simpl.
  - repeat apply conj.
    + reflexivity.
    + intros key Hk. unfold getItem. simpl. by rewrite lookup_insert_ne.
    + left. unfold getItem. simpl. apply lookup_insert_eq.
    + intros _. by apply N.leb_le.
  - repeat apply conj; [reflexivity|done|by right|done].
Qed.

(** X5 (witness): a store with room for the entry. *)
Lemma saveToLocalStorage_respects_the_quota_witness :
  let h := set_translations hello (i18n ∅ 100000 "en" true 0 page0) in
  let h' := saveToLocalStorage "en" h in
  set_localStorage (localStorage h') h = h' /\
  (forall key, key <> "i18n_" +:+ "en" -> getItem key h' = getItem key h) /\
  (getItem ("i18n_" +:+ "en") h' = Some (JSON_stringify (cacheData h)) \/ h' = h) /\
  (storage_size (localStorage h') <= storageQuota h')%N.
Proof.
  intros h.
  destruct (saveToLocalStorage_respects_the_quota "en" h) as (H1 & H2 & H3 & H4).
  repeat apply conj; [exact H1|exact H2|exact H3|].
  apply H4. vm_compute. discriminate.
Defined.

(** X6.  Saving the same translations twice at the same time is the same
    as saving them once, whether the store accepts the entry or not. *)
Theorem saveToLocalStorage_is_idempotent lang h :
  saveToLocalStorage lang (saveToLocalStorage lang h) = saveToLocalStorage lang h.
Proof.
  unfold saveToLocalStorage at 2 3. unfold setItem.
  destruct (_ <=? _)%N eqn:E.
  - unfold saveToLocalStorage, setItem, cacheData. simpl.
    rewrite insert_insert_eq. unfold cacheData in E. by rewrite E.
  - unfold saveToLocalStorage, setItem. by rewrite E.
Qed.

(** ** Writing translations into the page *)

Lemma translate_element_twice only tr el :
  translate_element None tr (translate_element only tr el) = translate_element None tr el.
Proof.
  unfold translate_element. destruct el as [key text]. simpl.
  destruct (tr !! key) as [v|] eqn:E; simpl.
  - destruct (truthy v) eqn:Ht; rewrite ?andb_true_r, ?andb_false_r; simpl.
    + destruct only as [keys|]; [destruct (bool_decide _)|]; simpl; by rewrite E, Ht.
    + by rewrite E, Ht.
  - destruct (inherited key) eqn:Hi; rewrite ?andb_true_r, ?andb_false_r; simpl.
    + destruct only as [keys|]; [destruct (bool_decide _)|]; simpl; by rewrite E, Hi.
    + by rewrite E, Hi.
Qed.

(** X7.  [applyTranslations] keeps the number of elements and their
    keys; an element whose key has a truthy translation gets it; one whose
    key is not a key of the translations but names a member of
    [Object.prototype] gets the text of that member; every other element
    keeps its text; applying twice is the same as applying once. *)
Theorem applyTranslations_is_idempotent h :
  let doc := document h in
  let doc' := document (applyTranslations h) in
  fst <$> elements doc' = fst <$> elements doc /\
  (forall i key text,
     elements doc !! i = Some (key, text) ->
     elements doc' !! i =
       Some (key, match translations h !! key with
                  | Some v => if truthy v then js_string v else text
                  | None => if inherited key then inherited_text key else text
                  end)) /\
  applyTranslations (applyTranslations h) = applyTranslations h.
Proof.
  repeat apply conj.
  - simpl. rewrite <- list_fmap_compose. apply list_fmap_ext.
    intros i [key text] _. unfold translate_element. simpl.
    destruct (translations h !! key) as [v|]; [by destruct (truthy v)|].
    by destruct (inherited key).
  - intros i key text Hi. simpl. rewrite list_lookup_fmap, Hi. simpl.
    unfold translate_element. simpl.
    destruct (translations h !! key) as [v|]; [by destruct (truthy v)|].
    by destruct (inherited key).
  - unfold applyTranslations. simpl.
    apply (f_equal (fun els => set_document
                                 {| title := title (document h); elements := els |} h)).
    rewrite <- list_fmap_compose. apply list_fmap_ext.
    intros i el _. apply translate_element_twice.
Qed.

(** X8.  [applyCriticalTranslations] writes only elements whose key is a
    critical key, and [applyTranslations] after it leaves the elements as
    [applyTranslations] alone does; the title is written by
    [applyCriticalTranslations] only. *)
Theorem applyCriticalTranslations_is_covered_by_applyTranslations h :
  (forall i key text,
     elements (document h) !! i = Some (key, text) ->
     key ∉ criticalKeys h ->
     elements (document (applyCriticalTranslations h)) !! i = Some (key, text)) /\
  elements (document (applyTranslations (applyCriticalTranslations h)))
  = elements (document (applyTranslations h)) /\
  title (document (applyTranslations (applyCriticalTranslations h)))
  = match translations h !! "pageTitle" with
    | Some v => if truthy v then js_string v else title (document h)
    | None => title (document h)
    end.
Proof.
  repeat apply conj.
  - intros i key text Hi Hk. simpl. rewrite list_lookup_fmap, Hi. simpl.
    unfold translate_element. simpl. rewrite bool_decide_eq_false_2 by done.
    by destruct (translations h !! key).
  - simpl. rewrite <- list_fmap_compose. apply list_fmap_ext.
    intros i el _. apply translate_element_twice.
  - reflexivity.
Qed.

(** ** Templates *)

Lemma templateCache_ok_initial storage quota language idlecb now page :
  templateCache_ok (i18n storage quota language idlecb now page).
Proof. intros tc str c E. discriminate E. Qed.

Lemma template_keeps_templateCache_ok str data h :
  templateCache_ok h -> templateCache_ok (template str data h).1.
Proof.
  intros Hok. unfold template.
  destruct (templateCache h) as [tc|] eqn:Etc; simpl.
  - destruct (tc !! str) as [c|] eqn:Ec; simpl.
    + intros tc' str' c' [= <-]. by apply Hok.
    + intros tc' str' c' [= <-] Hc.
      destruct (decide (str = str')) as [->|Hne].
      * rewrite lookup_insert_eq in Hc. by injection Hc as <-.
      * rewrite lookup_insert_ne in Hc by done. by eapply Hok.
  - rewrite lookup_empty. simpl. intros tc' str' c' [= <-] Hc.
    destruct (decide (str = str')) as [->|Hne].
    + rewrite lookup_insert_eq in Hc. by injection Hc as <-.
    + by rewrite lookup_insert_ne, lookup_empty in Hc.
Qed.

Lemma template_frame str data h :
  set_templateCache (templateCache (template str data h).1) h = (template str data h).1 /\
  translations (template str data h).1 = translations h.
Proof. unfold template. by destruct (_ !! str). Qed.

(** X9.  [template] compiles a string once: after a call the cache holds
    the closure of the string, the entries stay the closures of their
    keys, nothing but the cache has changed, and a further call with the
    same string changes nothing at all and returns what it would have
    returned without the cache. *)
Theorem template_compiles_a_string_once str data data' h :
  templateCache_ok h ->
  let h1 := (template str data h).1 in
  templateCache_ok h1 /\
  (exists tc, templateCache h1 = Some tc /\ tc !! str = Some (Compiled str)) /\
  set_templateCache (templateCache h1) h = h1 /\
  (template str data' h1).1 = h1 /\
  (template str data' h1).2 = run_compiled (Compiled str) data'.
Proof.
  intros Hok h1.
  assert (Hok1 : templateCache_ok h1) by by apply template_keeps_templateCache_ok.
  assert (Hin : exists tc, templateCache h1 = Some tc /\ tc !! str = Some (Compiled str)).
  { subst h1. unfold template.
    destruct (templateCache h) as [tc|] eqn:Etc; simpl.
    - destruct (tc !! str) as [c|] eqn:Ec; simpl.
      + exists tc. split; [done|]. by rewrite Ec, (Hok _ _ _ Etc Ec).
      + eexists. split; [done|]. apply lookup_insert_eq.
    - rewrite lookup_empty. simpl. eexists. split; [done|]. apply lookup_insert_eq. }
  repeat apply conj; [done|done|apply template_frame| |by apply template_result].
  destruct Hin as (tc & Htc & Hstr). unfold template. rewrite Htc. simpl. rewrite Hstr.
  simpl. apply (f_equal (fun c => set_templateCache c h1)) in Htc. by rewrite <- Htc.
Qed.

(** X9 (witness): the question of the minimal set, compiled on a fresh
    object. *)
Lemma template_compiles_a_string_once_witness :
  let h := i18n ∅ 100000 "en" true 0 page0 in
  let str := JStr "{username}? Will you be my love?" in
  let h1 := (template str {[ "username" := "Ada" ]} h).1 in
  templateCache_ok h1 /\
  (exists tc, templateCache h1 = Some tc /\ tc !! str = Some (Compiled str)) /\
  set_templateCache (templateCache h1) h = h1 /\
  (template str {[ "username" := "Bob" ]} h1).1 = h1 /\
  (template str {[ "username" := "Bob" ]} h1).2
  = run_compiled (Compiled str) {[ "username" := "Bob" ]}.
Proof.
  intros h str.
  apply (template_compiles_a_string_once str {[ "username" := "Ada" ]}
           {[ "username" := "Bob" ]} h).
  intros tc s c E. discriminate E.
Defined.

Lemma replace_placeholders_brace_free f s :
  brace_free s = true -> replace_placeholders f s = s.
Proof.
  induction s as [|c s IH]; [by rewrite replace_placeholders_equation_1|].
  simpl. intros H. rewrite replace_placeholders_cons.
  destruct (Ascii.eqb c "{"); [done|]. simpl in H.
  destruct (Ascii.eqb c "}"); [done|]. simpl in H. by rewrite IH.
Qed.

(** X10.  A placeholder splits the template: the text before it and the
    text after it are substituted on their own, and the value of the
    placeholder stands between them as it is, so braces in a value are not
    substituted again.  The value is the own property of the data of that
    name, else the text of the member of [Object.prototype] of that name,
    else nothing. *)
Theorem substitute_splits_at_a_placeholder data pre name post :
  name <> EmptyString ->
  brace_free name = true ->
  substitute data (pre +:+ "{" +:+ name +:+ "}" +:+ post)
  = substitute data pre
    +:+ match data !! name with
        | Some value => value
        | None => if inherited name then inherited_text name else EmptyString
        end
    +:+ substitute data post.
Proof.
  intros Hne Hbf. unfold substitute.
  change ("{" +:+ name +:+ "}" +:+ post) with (String "{" (name +:+ String "}" post)).
  rewrite replace_placeholders_app, replace_placeholders_placeholder by done.
  unfold placeholder_value. destruct (data !! name) as [value|]; [|done].
  by destruct value.
Qed.

(** X10 (witness): a value that is itself a placeholder stays literal. *)
Lemma substitute_splits_at_a_placeholder_witness :
  substitute {[ "username" := "{username}" ]} ("Dear " +:+ "{" +:+ "username" +:+ "}" +:+ "!")
  = substitute {[ "username" := "{username}" ]} "Dear "
    +:+ "{username}"
    +:+ substitute {[ "username" := "{username}" ]} "!".
Proof.
  pose proof (substitute_splits_at_a_placeholder {[ "username" := "{username}" ]}
                "Dear " "username" "!") as H.
  exact (H ltac:(done) eq_refl).
Defined.

(** X11.  A text without braces is its own substitution, whatever the
    data. *)
Theorem substitute_leaves_plain_text data s :
  brace_free s = true -> substitute data s = s.
Proof. apply replace_placeholders_brace_free. Qed.

(** X11 (witness) *)
Lemma substitute_leaves_plain_text_witness :
  substitute {[ "username" := "Ada" ]} "Will you be my sweetheart?"
  = "Will you be my sweetheart?".
Proof.
  apply (substitute_leaves_plain_text {[ "username" := "Ada" ]}). reflexivity.
Defined.

(** X12.  [t] changes nothing but the template cache, keeps its entries
    the closures of their keys, and gives the same result whatever the
    cache holds. *)
Theorem t_only_writes_the_template_cache key data h :
  templateCache_ok h ->
  let h' := (t key data h).1 in
  set_templateCache (templateCache h') h = h' /\
  templateCache_ok h' /\
  (t key data h').2 = (t key data h).2.
Proof.
  intros Hok. unfold t.
  destruct (translations h !! key) as [v|] eqn:Ev; cbn [fst snd].
  2:{ destruct (inherited key) eqn:Hi; cbn [fst snd]; [|by rewrite ?Ev, ?Hi].
      destruct (Nat.ltb 0 (size data)) eqn:Hs; cbn [fst snd]; [|by rewrite ?Ev, ?Hi, ?Hs].
      repeat apply conj.
      - reflexivity.
      - intros tc str c E1 E2. simpl in E1. injection E1 as <-.
        destruct (templateCache h) as [tc|] eqn:Etc; [by apply (Hok tc)|done].
      - replace (translations (set_templateCache (Some (default ∅ (templateCache h))) h))
          with (translations h) by reflexivity.
        by rewrite Ev. }
  destruct (truthy v) eqn:Ht; cbn [fst snd]; [|by rewrite ?Ev, ?Ht].
  destruct (Nat.ltb 0 (size data)) eqn:Hs; cbn [fst snd]; [|by rewrite ?Ev, ?Ht, ?Hs].
  destruct (template_frame v data h) as [Hframe Htr].
  pose proof (template_keeps_templateCache_ok v data h Hok) as Hok1.
  split; [exact Hframe|]. split; [exact Hok1|].
  rewrite Htr, ?Ev, ?Ht, ?Hs, !template_result by done. reflexivity.
Qed.

(** X12 (witness) *)
Lemma t_only_writes_the_template_cache_witness :
  let h := useMinimalFallbackTranslations (i18n ∅ 100000 "en" true 0 page0) in
  let h' := (t "loveMessage" {[ "username" := "Ada" ]} h).1 in
  set_templateCache (templateCache h') h = h' /\
  templateCache_ok h' /\
  (t "loveMessage" {[ "username" := "Ada" ]} h').2
  = (t "loveMessage" {[ "username" := "Ada" ]} h).2.
Proof.
  intros h.
  apply (t_only_writes_the_template_cache "loveMessage" {[ "username" := "Ada" ]} h).
  intros tc s c E. discriminate E.
Defined.

(** ** The page script *)

Lemma length_substring n m s : String.length (substring n m s) <= m.
Proof.
  revert n m. induction s as [|c s IH]; intros [|n] [|m]; simpl; try lia.
  - specialize (IH 0 m). lia.
  - apply (IH n 0).
  - apply (IH n (S m)).
Qed.

(** X13.  The confirm button, when the question is translated by
    [pre{username}post] with no further brace: the question shown is the
    template with the first twenty code units of the input in place of the
    placeholder, as they were typed; the name form is hidden and the
    confession shown; the translations are untouched. *)
Theorem confirmButton_click_inserts_the_name h p pre post :
  templateCache_ok h ->
  translations h !! "questionTemplate" = Some (JStr (pre +:+ "{username}" +:+ post)) ->
  brace_free pre = true ->
  brace_free post = true ->
  let r := confirmButton_click (h, p) in
  r.2 = None /\
  questionText r.1.2 = pre +:+ substring 0 20 (nameInput p) +:+ post /\
  String.length (substring 0 20 (nameInput p)) <= 20 /\
  nameInputContainer r.1.2 = "none" /\
  confessionContainer r.1.2 = "block" /\
  clickCount r.1.2 = clickCount p /\
  translations r.1.1 = translations h.
Proof.
  intros Hok Hq Hpre Hpost. unfold confirmButton_click. rewrite Hq.
  pose proof (template_result (JStr (pre +:+ "{username}" +:+ post))
                {[ "username" := js_or (username p) EmptyString ]} h Hok) as Hres.
  assert (Htr : translations (template (JStr (pre +:+ "{username}" +:+ post))
                   {[ "username" := js_or (username p) EmptyString ]} h).1
                = translations h) by apply template_frame.
  destruct (template _ _ h) as [h' c]. simpl in Hres, Htr. subst c. simpl.
  repeat apply conj; try done; [|apply length_substring].
  change (pre +:+ "{username}" +:+ post)
    with (pre +:+ "{" +:+ "username" +:+ "}" +:+ post).
  unfold substitute.
  change ("{" +:+ "username" +:+ "}" +:+ post) with (String "{" ("username" +:+ String "}" post)).
  rewrite replace_placeholders_app, replace_placeholders_placeholder by done.
  rewrite !replace_placeholders_brace_free by done.
  unfold placeholder_value. rewrite lookup_singleton_eq. simpl. unfold username, js_or.
  by destruct (substring 0 20 (nameInput p)).
Qed.

(** X13 (witness): a name of markup followed by twenty-one letters
    [U+00E9], of which the first seventeen are kept. *)
Lemma confirmButton_click_inserts_the_name_witness :
  let h := useMinimalFallbackTranslations (i18n ∅ 100000 "en" true 0 page0) in
  let name := "<b>" +:+ string_of_list_ascii (repeat "233"%char 21) in
  let p := page_loaded name EmptyString "No..." "heart.webp" in
  let r := confirmButton_click (h, p) in
  substring 0 20 (nameInput p) = "<b>" +:+ string_of_list_ascii (repeat "233"%char 17) /\
  r.2 = None /\
  questionText r.1.2
  = EmptyString +:+ substring 0 20 (nameInput p) +:+ "? Will you be my love?" /\
  String.length (substring 0 20 (nameInput p)) <= 20 /\
  nameInputContainer r.1.2 = "none" /\
  confessionContainer r.1.2 = "block" /\
  clickCount r.1.2 = clickCount p /\
  translations r.1.1 = translations h.
Proof.
  intros h name p. split; [reflexivity|].
  apply (confirmButton_click_inserts_the_name h p EmptyString "? Will you be my love?");
    [intros tc s c E; discriminate E|reflexivity|reflexivity|reflexivity].
Defined.

(** X14.  The confirm button, when [questionTemplate] is missing or is
    not a string: the handler throws a [TypeError] and the page stays as
    it is, with the name form still shown. *)
Theorem confirmButton_click_without_a_template h p :
  templateCache_ok h ->
  match translations h !! "questionTemplate" with
  | Some (JStr _) => False
  | _ => True
  end ->
  (confirmButton_click (h, p)).2 = Some TypeError /\
  (confirmButton_click (h, p)).1.2 = p /\
  translations (confirmButton_click (h, p)).1.1 = translations h.
Proof.
  intros Hok Hq. unfold confirmButton_click.
  destruct (translations h !! "questionTemplate") as [v|] eqn:Ev; [|done].
  pose proof (template_result v {[ "username" := js_or (username p) EmptyString ]} h Hok)
    as Hres.
  assert (Htr : translations (template v
                   {[ "username" := js_or (username p) EmptyString ]} h).1
                = translations h) by apply template_frame.
  destruct (template _ _ h) as [h' c]. simpl in Hres, Htr. subst c.
  by destruct v.
Qed.

(** X14 (witness): the page before any translation has been loaded. *)
Lemma confirmButton_click_without_a_template_witness :
  let h := i18n ∅ 100000 "en" true 0 page0 in
  let p := page_loaded "Ada" EmptyString "No..." "heart.webp" in
  (confirmButton_click (h, p)).2 = Some TypeError /\
  (confirmButton_click (h, p)).1.2 = p /\
  translations (confirmButton_click (h, p)).1.1 = translations h.
Proof.
  intros h p. apply (confirmButton_click_without_a_template h p);
    [intros tc s c E; discriminate E|exact I].
Defined.

(** X15.  The language selector: the option that is selected is the one
    of the browser language, or of "en" when the browser reports none; the
    stored preference, which [init] puts first, has no influence. *)
Theorem initLanguageSwitcher_ignores_the_stored_preference languages h :
  (forall i o,
     initLanguageSwitcher languages h !! i = Some o ->
     option_selected o = bool_decide (option_value o = js_or (navigatorLanguage h) "en")) /\
  (forall storage,
     initLanguageSwitcher languages (set_localStorage storage h)
     = initLanguageSwitcher languages h).
Proof.
  assert (Hor : forall a b, js_or (js_or a "en") b = js_or a "en").
  { intros a b. unfold js_or. by destruct a. }
  split.
  - intros i o. unfold initLanguageSwitcher. rewrite list_lookup_fmap, Hor.
    destruct (languages !! i) as [[code label]|]; [|done]. by intros [= <-].
  - intros storage. unfold initLanguageSwitcher. by rewrite !Hor.
Qed.

Lemma clickCount_noButton_clicks n h p :
  clickCount (noButton_clicks n h p) = clickCount p + n.
Proof.
  induction n as [|n IH]; simpl; [lia|]. rewrite IH. lia.
Qed.

(** X16.  After any number of clicks on the No button the counter has
    grown by that number, and after at least one the button stands 50 px
    to the right per counted click and the image 25 px up, half of it; the
    name form is as it was. *)
Theorem noButton_clicks_move_the_button n h p :
  let p' := noButton_clicks n h p in
  clickCount p' = clickCount p + n /\
  (0 < n -> noOffset p' = 50 * clickCount p' /\ moveUp p' = 25 * clickCount p' /\
            noOffset p' = 2 * moveUp p') /\
  nameInput p' = nameInput p /\
  questionText p' = questionText p /\
  nameInputContainer p' = nameInputContainer p /\
  confessionContainer p' = confessionContainer p.
Proof.
  split; [apply clickCount_noButton_clicks|].
  split.
  - destruct n as [|n]; [lia|]. intros _. simpl. lia.
  - induction n as [|n IH]; [done|]. simpl. apply IH.
Qed.

(** X17.  The image after a click on the No button depends on the counter
    alone: shocked, thinking, angry, and from the fourth counted click on,
    crying.  It never stays what it was. *)
Theorem noButton_click_sets_the_image n h p :
  mainImage (noButton_clicks (S n) h p)
  = match clickCount p + S n with
    | 1 => "assets/images/shocked.webp"
    | 2 => "assets/images/think.webp"
    | 3 => "assets/images/angry.webp"
    | _ => "assets/images/crying.webp"
    end.
Proof.
  change (noButton_clicks (S n) h p) with (noButton_click h (noButton_clicks n h p)).
  unfold noButton_click. simpl. rewrite clickCount_noButton_clicks.
  replace (clickCount p + S n) with (S (clickCount p + n)) by lia.
  destruct (clickCount p + n) as [|[|[|[|k]]]]; try reflexivity.
  unfold imageMap. rewrite !lookup_insert_ne by lia. by rewrite lookup_singleton_ne by lia.
Qed.

(** X18.  The text of the No button when [noTexts] is a list and the
    counter starts at zero: the first click shows the first text, each
    further click the next one, and when the list is used up the last text
    stays. *)
Theorem noButton_clicks_walk_through_noTexts n h p l :
  translations h !! "noTexts" = Some (JArr l) ->
  clickCount p = 0 ->
  noButtonText (noButton_clicks n h p)
  = match n with
    | 0 => noButtonText p
    | S _ => default (noButtonText p) (l !! (Nat.min n (List.length l) - 1))
    end.
Proof.
  intros Hl Hc. induction n as [|n IH]; [done|].
  assert (Hstep : noButtonText (noButton_clicks (S n) h p)
                  = default (noButtonText (noButton_clicks n h p))
                      (if Nat.leb (S n) (List.length l) then l !! n else None)).
  { change (noButton_clicks (S n) h p) with (noButton_click h (noButton_clicks n h p)).
    unfold noButton_click. cbn [noButtonText].
    rewrite clickCount_noButton_clicks, Hc. unfold noTexts_entry. by rewrite Hl. }
  rewrite Hstep. clear Hstep.
  destruct (Nat.leb (S n) (List.length l)) eqn:E.
  - apply Nat.leb_le in E.
    replace (Nat.min (S n) (List.length l) - 1) with n by lia.
    destruct (lookup_lt_is_Some_2 l n) as [x Hx]; [lia|]. by rewrite Hx.
  - apply Nat.leb_gt in E. cbn [default]. rewrite IH. destruct n as [|n].
    + assert (List.length l = 0) as Hlen by lia.
      by destruct l.
    + by replace (Nat.min (S (S n)) (List.length l)) with (Nat.min (S n) (List.length l))
        by lia.
Qed.

(** X18 (witness): seven clicks with the minimal set. *)
Lemma noButton_clicks_walk_through_noTexts_witness :
  let h := useMinimalFallbackTranslations (i18n ∅ 100000 "en" true 0 page0) in
  let p := page_loaded "Ada" EmptyString "No..." "heart.webp" in
  noButtonText (noButton_clicks 7 h p) = "Final answer?".
Proof.
  intros h p.
  apply (noButton_clicks_walk_through_noTexts 7 h p
           [ "Wait, really?"; "My heart is cracking..."; "Please think again!";
             "I'll cry a river..."; "Final answer?" ]); reflexivity.
Defined.

(** ** Loading a language *)

(* the run has ended, or goes on with an event that cannot happen *)
Ltac over H evs tac :=
  node H evs; [tac | simpl in H; done | simpl in H; done].

(** X19.  One call of [loadTranslations] asks for the file of the language
    and, after a failure, for the file of its base, and for nothing else;
    it is rejected only with the failure of the language it was called
    for; when it is fulfilled the active translations are the cached set
    of the language or of its base; the selected language and the store
    are never touched. *)
Theorem loadTranslations_requests_at_most_two_files h lang evs W :
  run evs (call (loadTranslations lang) (idle h)) = Some W ->
  requestLog W `prefix_of` [filePath lang; filePath (baseOf lang)] /\
  (forall e, outcome 0 W = Some (Rejected e) -> e = LoadFailed lang) /\
  (outcome 0 W = Some Fulfilled ->
   cache (heap W) !! lang = Some (translations (heap W)) \/
   cache (heap W) !! baseOf lang = Some (translations (heap W))) /\
  currentLang (heap W) = currentLang h /\
  localStorage (heap W) = localStorage h.
Proof.
  intros H. unfold call in H. simpl in H. rewrite exec_loadTranslations in H. simpl in H.
  assert (P0 : @nil string `prefix_of` [filePath lang; filePath (baseOf lang)])
    by apply prefix_nil.
  assert (P1 : [filePath lang] `prefix_of` [filePath lang; filePath (baseOf lang)])
    by (by exists [filePath (baseOf lang)]).
  destruct (cache h !! lang) as [g|] eqn:Hc; simpl in H.
  { over H evs ltac:(simpl; rewrite Hc; repeat apply conj; try done; by left). }
  node H evs; [simpl; repeat apply conj; done| |simpl in H; done].
  destruct i as [|i]; simpl in H; [|done].
  destruct (reply_json r) as [j|] eqn:Hr.
  { rewrite (exec_fetched_ok _ _ _ _ _ Hr) in H. simpl in H.
    over H evs ltac:(unfold store; simpl; rewrite lookup_insert_eq;
                     repeat apply conj; try done; by left). }
  rewrite (fetched_fail _ _ Hr), exec_fallback in H.
  destruct (decide (baseOf lang = lang)) as [Hb|Hb]; simpl in H.
  { over H evs ltac:(simpl; repeat apply conj; try done; by intros e [= <-]). }
  destruct (cache h !! baseOf lang) as [g|] eqn:Hcb; simpl in H.
  { over H evs ltac:(simpl; rewrite Hcb; repeat apply conj; try done; by right). }
  node H evs; [simpl; repeat apply conj; done| |simpl in H; done].
  destruct i as [|i]; simpl in H; [|done].
  destruct (reply_json r0) as [j|] eqn:Hr0.
  { rewrite (exec_fetchedBase_ok _ _ _ _ _ Hr0) in H. simpl in H.
    over H evs ltac:(unfold store; simpl; rewrite lookup_insert_eq;
                     repeat apply conj; try done; by right). }
  rewrite (fetchedBase_fail _ _ Hr0) in H. simpl in H.
  over H evs ltac:(simpl; repeat apply conj; try done; by intros e [= <-]).
Qed.

(** X19 (witness): "fr-CA" fails and "fr" is served. *)
Lemma loadTranslations_requests_at_most_two_files_witness :
  let h := i18n ∅ 100000 "fr-CA" true 0 page0 in
  let evs := [Arrive 10 0 FetchFailed;
              Arrive 20 0 (Responded {| status := 200; body := Some hello |})] in
  match run evs (call (loadTranslations "fr-CA") (idle h)) with
  | Some W =>
      requestLog W `prefix_of` [filePath "fr-CA"; filePath (baseOf "fr-CA")] /\
      (forall e, outcome 0 W = Some (Rejected e) -> e = LoadFailed "fr-CA") /\
      (outcome 0 W = Some Fulfilled ->
       cache (heap W) !! "fr-CA" = Some (translations (heap W)) \/
       cache (heap W) !! baseOf "fr-CA" = Some (translations (heap W))) /\
      currentLang (heap W) = currentLang h /\
      localStorage (heap W) = localStorage h
  | None => False
  end.
Proof.
  intros h evs.
  assert (Hrun : is_Some (run evs (call (loadTranslations "fr-CA") (idle h))))
    by (by eexists).
  destruct (run evs _) as [W|] eqn:E; [|by destruct Hrun].
  apply (loadTranslations_requests_at_most_two_files h "fr-CA" evs W E).
Defined.

(** X20.  When the file of a regional language fails and the file of its
    base is served, the load is fulfilled with the base set, which is
    cached under the base code only: the regional code has no cache entry
    and is requested again by the next load. *)
Theorem loadTranslations_falls_back_to_the_base_language h lang now1 now2 r1 r2 j :
  cache h !! lang = None ->
  cache h !! baseOf lang = None ->
  baseOf lang <> lang ->
  reply_json r1 = None ->
  reply_json r2 = Some j ->
  exists W,
    run [Arrive now1 0 r1; Arrive now2 0 r2] (call (loadTranslations lang) (idle h)) = Some W /\
    outcome 0 W = Some Fulfilled /\
    translations (heap W) = j /\
    cache (heap W) !! baseOf lang = Some j /\
    cache (heap W) !! lang = None /\
    requestLog W = [filePath lang; filePath (baseOf lang)] /\
    requestLog (call (loadTranslations lang) W)
    = [filePath lang; filePath (baseOf lang); filePath lang].
Proof.
  intros Hc Hcb Hb Hr1 Hr2.
  unfold call at 1. simpl. rewrite exec_loadTranslations. simpl. rewrite Hc. simpl.
  rewrite run_cons. simpl. rewrite (fetched_fail _ _ Hr1), exec_fallback.
  destruct (decide (baseOf lang = lang)) as [E|_]; [by destruct Hb|].
  simpl. rewrite Hcb. simpl.
  rewrite run_cons. simpl. rewrite (exec_fetchedBase_ok _ _ _ _ _ Hr2). simpl.
  rewrite run_nil. eexists. split; [reflexivity|]. unfold store. simpl.
  rewrite lookup_insert_eq, lookup_insert_ne, Hc by done.
  repeat apply conj; try done.
  unfold call. simpl. rewrite exec_loadTranslations. simpl.
  by rewrite lookup_insert_ne, Hc.
Qed.

(** X20 (witness) *)
Lemma loadTranslations_falls_back_to_the_base_language_witness :
  let h := i18n ∅ 100000 "fr-CA" true 0 page0 in
  let r2 := Responded {| status := 200; body := Some hello |} in
  exists W,
    run [Arrive 10 0 FetchFailed; Arrive 20 0 r2]
      (call (loadTranslations "fr-CA") (idle h)) = Some W /\
    outcome 0 W = Some Fulfilled /\
    translations (heap W) = hello /\
    cache (heap W) !! baseOf "fr-CA" = Some hello /\
    cache (heap W) !! "fr-CA" = None /\
    requestLog W = [filePath "fr-CA"; filePath (baseOf "fr-CA")] /\
    requestLog (call (loadTranslations "fr-CA") W)
    = [filePath "fr-CA"; filePath (baseOf "fr-CA"); filePath "fr-CA"].
Proof.
  intros h r2.
  apply (loadTranslations_falls_back_to_the_base_language h "fr-CA" 10 20 FetchFailed r2 hello);
    try reflexivity.
  vm_compute. discriminate.
Defined.

(** X21.  A timeout does not cancel the request, and it ends the
    deduplication: a load of the same language started after the timeout
    sends a second request for the same file while the first is still
    pending. *)
Theorem timed_out_load_is_requested_again h lang now1 :
  loadingPromises h !! lang = None ->
  cache h !! lang = None ->
  exists W1,
    run [Fire now1 0] (call (loadTranslationsWithTimeout lang) (idle h)) = Some W1 /\
    outcome 0 W1 = Some (Rejected (TimeoutError lang)) /\
    List.length (requests W1) = 1 /\
    let W2 := call (loadTranslationsWithTimeout lang) W1 in
    requestLog W2 = [filePath lang; filePath lang] /\
    List.length (requests W2) = 2 /\
    outcome 2 W2 = None /\
    loadingPromises (heap W2) !! lang = Some 3.
Proof.
  intros Hp Hc.
  unfold call at 1, loadTranslationsWithTimeout. simpl. rewrite Hp. simpl.
  rewrite exec_loadTranslations. simpl. rewrite Hc. simpl.
  rewrite run_cons. simpl. rewrite run_nil.
  eexists. split; [reflexivity|]. simpl. split; [done|]. split; [done|].
  unfold call. simpl. rewrite lookup_delete_eq. simpl.
  rewrite exec_loadTranslations. simpl. rewrite Hc. simpl.
  by rewrite lookup_insert_eq.
Qed.

(** X21 (witness) *)
Lemma timed_out_load_is_requested_again_witness :
  let h := i18n ∅ 100000 "en" true 0 page0 in
  exists W1,
    run [Fire 3000 0] (call (loadTranslationsWithTimeout "ja") (idle h)) = Some W1 /\
    outcome 0 W1 = Some (Rejected (TimeoutError "ja")) /\
    List.length (requests W1) = 1 /\
    let W2 := call (loadTranslationsWithTimeout "ja") W1 in
    requestLog W2 = [filePath "ja"; filePath "ja"] /\
    List.length (requests W2) = 2 /\
    outcome 2 W2 = None /\
    loadingPromises (heap W2) !! "ja" = Some 3.
Proof.
  intros h. apply (timed_out_load_is_requested_again h "ja" 3000); reflexivity.
Defined.

(** X22.  When the reply arrives before the timer, the load is fulfilled
    and the in-flight record removed; the timer that fires later changes
    the clock and nothing else. *)
Theorem late_timer_changes_nothing h lang now1 now2 r j :
  loadingPromises h !! lang = None ->
  cache h !! lang = None ->
  reply_json r = Some j ->
  exists W1 W2,
    run [Arrive now1 0 r] (call (loadTranslationsWithTimeout lang) (idle h)) = Some W1 /\
    run [Fire now2 0] W1 = Some W2 /\
    outcome 0 W1 = Some Fulfilled /\
    loadingPromises (heap W1) !! lang = None /\
    translations (heap W1) = j /\
    heap W2 = set_clock now2 (heap W1) /\
    promises W2 = promises W1 /\
    requestLog W2 = requestLog W1.
Proof.
  intros Hp Hc Hr.
  unfold call, loadTranslationsWithTimeout. simpl. rewrite Hp. simpl.
  rewrite exec_loadTranslations. simpl. rewrite Hc. simpl.
  rewrite run_cons. simpl. rewrite (exec_fetched_ok _ _ _ _ _ Hr). simpl. rewrite run_nil.
  eexists _, _. split; [reflexivity|].
  rewrite run_cons. simpl. rewrite run_nil. split; [reflexivity|]. simpl.
  by rewrite lookup_delete_eq.
Qed.

(** X22 (witness) *)
Lemma late_timer_changes_nothing_witness :
  let h := i18n ∅ 100000 "en" true 0 page0 in
  let r := Responded {| status := 200; body := Some hello |} in
  exists W1 W2,
    run [Arrive 100 0 r] (call (loadTranslationsWithTimeout "ja") (idle h)) = Some W1 /\
    run [Fire 3000 0] W1 = Some W2 /\
    outcome 0 W1 = Some Fulfilled /\
    loadingPromises (heap W1) !! "ja" = None /\
    translations (heap W1) = hello /\
    heap W2 = set_clock 3000 (heap W1) /\
    promises W2 = promises W1 /\
    requestLog W2 = requestLog W1.
Proof.
  intros h r. apply (late_timer_changes_nothing h "ja" 100 3000 r hello); reflexivity.
Defined.

(** ** Switching the language *)



(** X24.  Selecting the language that is already selected, once the page
    is initialised, does nothing: the promise is fulfilled at once and the
    state is untouched.  This also holds after a switch that failed. *)
Theorem switchLanguage_to_the_current_language h lang :
  lang = currentLang h ->
  initialized h = true ->
  call (switchLanguage lang) (idle h) = set_promises [Some Fulfilled] (idle h).
Proof.
  intros -> Hi. unfold call, switchLanguage. simpl.
  rewrite bool_decide_eq_true_2, Hi by done. reflexivity.
Qed.

(** X24 (witness) *)
Lemma switchLanguage_to_the_current_language_witness :
  let h := set_initialized true (set_currentLang "ja" (i18n ∅ 100000 "en" true 0 page0)) in
  call (switchLanguage "ja") (idle h) = set_promises [Some Fulfilled] (idle h).
Proof.
  intros h. apply (switchLanguage_to_the_current_language h "ja"); reflexivity.
Defined.

(** X25.  When the store refuses the preference, the switch is rejected
    with the quota error: the language is already changed, but nothing is
    stored, no file is requested, the indicator is never switched on, and
    the translations are those of the language before. *)
Theorem switchLanguage_when_the_store_is_full h lang :
  bool_decide (lang = currentLang h) && initialized h = false ->
  setItem "userLangPreference" lang (set_currentLang lang h) = None ->
  let W := call (switchLanguage lang) (idle h) in
  outcome 0 W = Some (Rejected QuotaExceededError) /\
  heap W = set_currentLang lang h /\
  requestLog W = [] /\
  timers W = [].
Proof.
  intros Hsame Hset. unfold call, switchLanguage. simpl.
  rewrite Hsame. simpl. rewrite Hset. done.
Qed.

(** X25 (witness): a store without room. *)
Lemma switchLanguage_when_the_store_is_full_witness :
  let h := i18n ∅ 10 "en" true 0 page0 in
  let W := call (switchLanguage "ja") (idle h) in
  outcome 0 W = Some (Rejected QuotaExceededError) /\
  heap W = set_currentLang "ja" h /\
  requestLog W = [] /\
  timers W = [].
Proof.
  intros h. apply (switchLanguage_when_the_store_is_full h "ja"); reflexivity.
Defined.

(** ** Initialisation *)

(** X26.  [init] on a page whose durable cache has an entry for the
    selected language: the promise is fulfilled before anything else
    happens, with the stored set as active translations, and no file is
    requested.  The background refresh that follows does not contact the
    network either, since the stored set is by then in the memory cache:
    it writes the same set back with a new timestamp. *)
Theorem init_with_a_durable_entry storage quota language idlecb now page text j now' :
  let L := js_or (default EmptyString (storage !! "userLangPreference"))
                 (js_or language "en") in
  let h0 := i18n storage quota language idlecb now page in
  storage !! ("i18n_" +:+ L) = Some text ->
  truthy_string text = true ->
  JSON_parse text = Some j ->
  let W := call init (idle h0) in
  outcome 0 W = Some Fulfilled /\
  requestLog W = [] /\
  translations (heap W) = j /\
  currentLang (heap W) = L /\
  initialized (heap W) = true /\
  cache (heap W) !! L = Some j /\
  localStorage (heap W) = storage /\
  exists W',
    run [Fire now' 0] W = Some W' /\
    requestLog W' = [] /\
    requests W' = [] /\
    translations (heap W') = j /\
    localStorage (heap W') = localStorage (saveToLocalStorage L (set_clock now' (heap W))).
Proof.
  intros L h0 Htext Htruthy Hparse W. subst W h0.
  unfold call, init. simpl.
  rewrite findAvailableLanguage_initial.
  change (getItem "userLangPreference"
            (setFallbackChain (i18n storage quota language idlecb now page)))
    with (storage !! "userLangPreference").
  fold L.
  remember (setFallbackChain (i18n storage quota language idlecb now page)) as h1 eqn:Hh1.
  assert (Hst : localStorage h1 = storage) by by subst h1.
  assert (Hidle : hasRequestIdleCallback h1 = idlecb) by by subst h1.
  rewrite (loadFromLocalStorage_hit L (set_currentLang L h1) text j);
    [|unfold getItem; simpl; by rewrite Hst|done|done].
  clear Hh1. clearbody L. unfold store. simpl.
  destruct (hasRequestIdleCallback h1); simpl.
  all: rewrite lookup_insert_eq.
  all: repeat (split; [done|]).
  all: rewrite run_cons; simpl; rewrite loadTranslations_body; simpl.
  all: rewrite lookup_insert_eq; simpl; rewrite run_nil.
  all: eexists; split; [reflexivity|]; simpl.
  all: repeat (split; [done|]).
  all: unfold saveToLocalStorage, setItem; simpl.
  all: by destruct (_ <=? _)%N.
Qed.

(** X26 (witness): the entry saved for "en" by an earlier visit. *)
Lemma init_with_a_durable_entry_witness :
  let j := <["__ttl" := JNum thirty_days]> (<["__timestamp" := JNum 0]> hello) in
  let storage : gmap string string := {[ "i18n_en" := JSON_stringify j ]} in
  let h0 := i18n storage 100000 "en" true 5 page0 in
  let W := call init (idle h0) in
  outcome 0 W = Some Fulfilled /\
  requestLog W = [] /\
  translations (heap W) = j /\
  currentLang (heap W) = "en" /\
  initialized (heap W) = true /\
  cache (heap W) !! "en" = Some j /\
  localStorage (heap W) = storage /\
  exists W',
    run [Fire 1005 0] W = Some W' /\
    requestLog W' = [] /\
    requests W' = [] /\
    translations (heap W') = j /\
    localStorage (heap W') = localStorage (saveToLocalStorage "en" (set_clock 1005 (heap W))).
Proof.
  intros j storage h0.
  apply (init_with_a_durable_entry storage 100000 "en" true 5 page0 (JSON_stringify j) j 1005).
  - reflexivity.
  - reflexivity.
  - apply JSON_parse_stringify.
Defined.

(** ** Preloading *)

Lemma settle_jobs_no_waiters w : waiters w = [] -> settle_jobs w = w.
Proof. destruct w as [h ps rs ts ws lg]. simpl. by intros ->. Qed.

Lemma exec_preloadOne lang k w :
  cache (heap w) !! lang = None ->
  exec (preloadOne lang k) None w
  = if bool_decide (lang <> currentLang (heap w))
         && negb (bool_decide (lang ∈ preloadedLangs (heap w)))
    then exec k None
           (issue_request
              {| req_path := filePath lang;
                 req_k := fun r => try_catch (fetched lang r) (fun err => Done);
                 req_owner := None |}
              (set_heap (set_preloadedLangs (preloadedLangs (heap w) ++ [lang]) (heap w)) w))
    else exec k None w.
Proof.
  intros Hc. destruct w as [h ps rs ts ws lg]. unfold preloadOne. simpl.
  destruct (_ && _); simpl; [|done].
  rewrite loadTranslations_body. simpl. simpl in Hc. by rewrite Hc.
Qed.

(* the languages the callback of [preloadPopularLanguages] loads *)
Lemma exec_preload langCodes : forall w,
  NoDup langCodes ->
  (forall lang, lang ∈ langCodes ->
                cache (heap w) !! lang = None /\ lang ∉ preloadedLangs (heap w)) ->
  let sel := filter (fun lang => lang <> currentLang (heap w)) langCodes in
  let w' := exec (foldr preloadOne Done langCodes) None w in
  heap w' = set_preloadedLangs (preloadedLangs (heap w) ++ sel) (heap w) /\
  requestLog w' = (requestLog w ++ (filePath <$> sel))%list /\
  List.length (requests w') = List.length (requests w) + List.length sel /\
  promises w' = promises w /\ timers w' = timers w /\ waiters w' = waiters w.
Proof.
  induction langCodes as [|lang langs IH]; intros w Hnd Hin.
  - destruct w as [h ps rs ts ws lg]. simpl. rewrite !app_nil_r.
    repeat apply conj; done.
  - apply NoDup_cons in Hnd as [Hnotin Hnd].
    destruct (Hin lang) as [Hc Hpre]; [by left|].
    cbn zeta. cbn [foldr]. rewrite exec_preloadOne by done.
    rewrite (bool_decide_eq_false_2 (lang ∈ preloadedLangs (heap w))) by done.
    rewrite andb_true_r. rewrite filter_cons.
    destruct (decide (lang <> currentLang (heap w))) as [Hne|Heq].
    + rewrite bool_decide_eq_true_2 by done.
      match goal with
      | |- context [exec _ None ?w1] =>
          destruct (IH w1 Hnd) as (H1 & H2 & H3 & H4 & H5 & H6)
      end.
      { intros l Hl. destruct w as [h ps rs ts ws lg]. simpl.
        destruct (Hin l) as [Hcl Hpl]; [by right|]. split; [done|].
        simpl in Hpl. rewrite elem_of_app, list_elem_of_singleton.
        intros [? | ->]; done. }
      destruct w as [h ps rs ts ws lg]. simpl in *.
      rewrite H1, H2, H3, H4, H5, H6. rewrite !length_app, <- !app_assoc. simpl.
      repeat apply conj; try done. lia.
    + rewrite bool_decide_eq_false_2 by done.
      apply IH; [done|]. intros l Hl. apply Hin. by right.
Qed.

(** X27.  The callback of [preloadPopularLanguages], for any list of
    distinct languages that are neither cached nor preloaded: it requests
    the file of every language of the list but the selected one, in the
    order of the list, and records them as preloaded; the active
    translations are not touched by the callback itself. *)
Theorem preloadPopularLanguages_requests_the_other_languages h langCodes now1 :
  NoDup langCodes ->
  langCodes <> [] ->
  (forall lang, lang ∈ langCodes -> cache h !! lang = None /\ lang ∉ preloadedLangs h) ->
  exists W,
    run [Fire now1 0] (call (preloadPopularLanguages langCodes Done) (idle h)) = Some W /\
    preloadedLangs (heap W)
    = (preloadedLangs h ++ filter (fun lang => lang <> currentLang h) langCodes)%list /\
    requestLog W = (filePath <$> filter (fun lang => lang <> currentLang h) langCodes) /\
    List.length (requests W)
    = List.length (filter (fun lang => lang <> currentLang h) langCodes) /\
    (filePath (currentLang h) ∉ requestLog W) /\
    translations (heap W) = translations h /\
    timers W = [].
Proof.
  intros Hnd Hne Hin.
  assert (Hcall : exists d,
             call (preloadPopularLanguages langCodes Done) (idle h)
             = {| heap := h; promises := [Some Fulfilled]; requests := [];
                  timers := [Callback d (foldr preloadOne Done langCodes)];
                  waiters := []; requestLog := [] |}).
  { unfold call, preloadPopularLanguages. destruct langCodes as [|l ls]; [by destruct Hne|].
    simpl. match goal with |- context [if ?b then _ else _] => destruct b end; by eexists. }
  destruct Hcall as [d ->]. rewrite run_cons. cbn [step timers nth_opt remove_nth].
  cbn [set_timers set_heap heap promises requests waiters requestLog timers].
  match goal with
  | |- context [exec _ None ?w1] =>
      destruct (exec_preload langCodes w1 Hnd) as (H1 & H2 & H3 & H4 & H5 & H6);
        [exact Hin|]
  end.
  cbn [heap set_clock currentLang preloadedLangs requestLog requests promises timers
       waiters] in H1, H2, H3, H4, H5, H6.
  rewrite settle_jobs_no_waiters by done. rewrite run_nil.
  eexists. split; [reflexivity|]. rewrite H1, H2, H3, H5. simpl.
  repeat apply conj; try done.
  intros Hel. apply list_elem_of_fmap in Hel as (l & E & Hl).
  apply filePath_inj in E. subst l. apply list_elem_of_filter in Hl as [Hl _]. by apply Hl.
Qed.

(** X27 (witness): the list of [init] on a page in Japanese. *)
Lemma preloadPopularLanguages_requests_the_other_languages_witness :
  let h := set_currentLang "ja" (i18n ∅ 100000 "ja" true 0 page0) in
  let langCodes := ["en"; "zh-CN"; "zh-TW"; "ja"; "ko"] in
  exists W,
    run [Fire 50 0] (call (preloadPopularLanguages langCodes Done) (idle h)) = Some W /\
    preloadedLangs (heap W)
    = (preloadedLangs h ++ filter (fun lang => lang <> currentLang h) langCodes)%list /\
    requestLog W = (filePath <$> filter (fun lang => lang <> currentLang h) langCodes) /\
    List.length (requests W)
    = List.length (filter (fun lang => lang <> currentLang h) langCodes) /\
    (filePath (currentLang h) ∉ requestLog W) /\
    translations (heap W) = translations h /\
    timers W = [].
Proof.
  intros h langCodes.
  apply (preloadPopularLanguages_requests_the_other_languages h langCodes 50).
  - refine (bool_decide_unpack _ _). vm_compute. exact I.
  - discriminate.
  - intros lang _. split; [reflexivity|]. apply not_elem_of_nil.
Defined.

(** X28.  A preloaded file that is served becomes the active set of
    translations, although the selected language is another one and the
    page is not translated again. *)
Theorem preloaded_language_replaces_the_active_translations h lang now1 now2 r j :
  lang <> currentLang h ->
  lang ∉ preloadedLangs h ->
  cache h !! lang = None ->
  reply_json r = Some j ->
  exists W,
    run [Fire now1 0; Arrive now2 0 r]
      (call (preloadPopularLanguages [lang] Done) (idle h)) = Some W /\
    translations (heap W) = j /\
    cache (heap W) !! lang = Some j /\
    currentLang (heap W) = currentLang h /\
    currentLang (heap W) <> lang /\
    document (heap W) = document h /\
    localStorage (heap W) = localStorage h.
Proof.
  intros Hne Hpre Hc Hr.
  unfold call, preloadPopularLanguages. simpl.
  assert (Hrun : forall d,
    run [Fire now1 0; Arrive now2 0 r]
      {| heap := h; promises := [Some Fulfilled]; requests := [];
         timers := [Callback d (preloadOne lang Done)]; waiters := []; requestLog := [] |}
    = Some {| heap := store lang j
                        (set_clock now2
                           (set_preloadedLangs (preloadedLangs h ++ [lang])
                              (set_clock now1 h)));
              promises := [Some Fulfilled]; requests := []; timers := []; waiters := [];
              requestLog := [filePath lang] |}).
  { intros d. rewrite run_cons. cbn [step timers nth_opt remove_nth].
    rewrite exec_preloadOne by done. simpl.
    rewrite bool_decide_eq_true_2, bool_decide_eq_false_2 by done. simpl.
    rewrite run_cons. simpl.
    unfold fetched. destruct r as [|resp]; [done|]. simpl in Hr.
    destruct (response_ok resp); [|done]. rewrite Hr. simpl. by rewrite run_nil. }
  match goal with |- context [if ?b then _ else _] => destruct b end; simpl; rewrite Hrun.
  all: eexists; split; [reflexivity|]; unfold store; simpl.
  all: rewrite lookup_insert_eq; repeat apply conj; try done.
  all: by intros E; apply Hne.
Qed.

(** X28 (witness) *)
Lemma preloaded_language_replaces_the_active_translations_witness :
  let h := set_currentLang "ja" (i18n ∅ 100000 "ja" true 0 page0) in
  let r := Responded {| status := 200; body := Some hello |} in
  exists W,
    run [Fire 50 0; Arrive 60 0 r]
      (call (preloadPopularLanguages ["en"] Done) (idle h)) = Some W /\
    translations (heap W) = hello /\
    cache (heap W) !! "en" = Some hello /\
    currentLang (heap W) = currentLang h /\
    currentLang (heap W) <> "en" /\
    document (heap W) = document h /\
    localStorage (heap W) = localStorage h.
Proof.
  intros h r.
  apply (preloaded_language_replaces_the_active_translations h "en" 50 60 r hello);
    [discriminate|apply not_elem_of_nil|reflexivity|reflexivity].
Defined.

(** ** [init] never fails *)

(** X29.  The promise of [init] is never rejected: on a freshly loaded
    page whose durable cache holds, under the keys [i18n_<lang>], only
    entries that [saveToLocalStorage] wrote, and whatever happens to the
    requests and timers, it is pending or fulfilled, and when it is
    fulfilled the page is marked initialised and the active translations
    are a cached set or the built-in minimal set. *)
Theorem init_is_never_rejected storage quota language idlecb now page evs W :
  written_by_saveToLocalStorage storage ->
  run_until 0 evs (call init (idle (i18n storage quota language idlecb now page))) = Some W ->
  match outcome 0 W with
  | None => True
  | Some s =>
      s = Fulfilled /\
      initialized (heap W) = true /\
      (translations (heap W) = minimalTranslations \/
       exists lang, cache (heap W) !! lang = Some (translations (heap W)))
  end.
Proof.
  intros Hw H.
  pose (L := js_or (default EmptyString (storage !! "userLangPreference"))
               (js_or language "en")).
  destruct (storage !! ("i18n_" +:+ L)) as [text|] eqn:Hent.
  - (* the durable cache has the language *)
    destruct (Hw L text Hent) as [o ->].
    unfold call, init in H. simpl in H.
    rewrite findAvailableLanguage_initial in H.
    change (getItem "userLangPreference"
              (setFallbackChain (i18n storage quota language idlecb now page)))
      with (storage !! "userLangPreference") in H.
    fold L in H.
    remember (setFallbackChain (i18n storage quota language idlecb now page)) as h1 eqn:Hh1.
    assert (Hst : localStorage h1 = storage) by by subst h1.
    rewrite (loadFromLocalStorage_hit L (set_currentLang L h1) (JSON_stringify o) o) in H;
      [|unfold getItem; simpl; by rewrite Hst
       |apply truthy_JSON_stringify|apply JSON_parse_stringify].
    clear Hh1 Hst Hent. clearbody L. unfold store in H.
    settle H; simpl; (split; [reflexivity|]); (split; [reflexivity|]);
      right; eexists; apply lookup_insert_eq.
  - by destruct (init_without_a_durable_entry storage quota language idlecb now page
                   evs W Hent H) as (_ & _ & Hout).
Qed.

(** X29 (witness): the file of "fr-CA" fails, the file of "fr" is served. *)
Lemma init_is_never_rejected_witness :
  let evs := [Arrive 10 0 FetchFailed;
              Arrive 20 0 (Responded {| status := 200; body := Some hello |})] in
  match run_until 0 evs (call init (idle (i18n ∅ 100000 "fr-CA" true 0 page0))) with
  | Some W =>
      match outcome 0 W with
      | None => True
      | Some s =>
          s = Fulfilled /\
          initialized (heap W) = true /\
          (translations (heap W) = minimalTranslations \/
           exists lang, cache (heap W) !! lang = Some (translations (heap W)))
      end
  | None => False
  end.
Proof.
  intros evs.
  assert (Hrun : (run_until 0 evs (call init (idle (i18n ∅ 100000 "fr-CA" true 0 page0)))
                  ≫= outcome 0) = Some Fulfilled) by (vm_compute; reflexivity).
  destruct (run_until 0 evs _) as [W|] eqn:E; [|discriminate Hrun].
  apply (init_is_never_rejected ∅ 100000 "fr-CA" true 0 page0 evs W); [|exact E].
  intros lang text Hl. discriminate Hl.
Defined.

(** ** The Yes button *)

(** X30.  [loveTest], when the love message is translated by
    [pre{username}post] with no further brace: the text is the template
    with the name in place of the placeholder, and with nothing in its
    place when the name is empty. *)
Theorem loveTest_inserts_the_name h name pre post :
  templateCache_ok h ->
  translations h !! "loveMessage" = Some (JStr (pre +:+ "{username}" +:+ post)) ->
  brace_free pre = true ->
  brace_free post = true ->
  (loveTest name h).2 = Returned (JStr (pre +:+ name +:+ post)) /\
  translations (loveTest name h).1 = translations h.
Proof.
  intros Hok Hl Hpre Hpost. unfold loveTest. rewrite Hl.
  split; [|apply template_frame].
  rewrite template_result by done. simpl. do 2 f_equal. unfold substitute.
  change (pre +:+ "{username}" +:+ post)
    with (pre +:+ String "{" ("username" +:+ String "}" post)).
  rewrite replace_placeholders_app, replace_placeholders_placeholder by done.
  rewrite !replace_placeholders_brace_free by done.
  unfold placeholder_value. rewrite lookup_singleton_eq. simpl. unfold js_or. by destruct name.
Qed.

(** X30 (witness): the love message of the minimal set. *)
Lemma loveTest_inserts_the_name_witness :
  let h := useMinimalFallbackTranslations (i18n ∅ 100000 "en" true 0 page0) in
  (loveTest "Ada" h).2 = Returned (JStr ("I love you! " +:+ "Ada" +:+ EmptyString)) /\
  translations (loveTest "Ada" h).1 = translations h.
Proof.
  intros h.
  apply (loveTest_inserts_the_name h "Ada" "I love you! " EmptyString);
    [intros tc s c E; discriminate E|reflexivity|reflexivity|reflexivity].
Defined.
